(** * Monopoly steady-state simulation: transition model and chain sampler

    Shallow embedding of [SteadyState/GenerateDataForSimulation.py].

    Conventions of the embedding:
    - Python's [float] (IEEE binary64) is idealised as the exact rationals
      [Q]; equalities between probabilities are stated with [==] ([Qeq]).
    - Python's unbounded non-negative [int] indices are [nat].
    - A numpy 2-d array is a list of rows; an access out of range raises
      [IndexError] in the source and is [None] here.
    - Python exceptions are [None] in the [option] error monad. *)

From Stdlib Require Import String Ascii List Sorted Arith ZArith QArith Qabs Lia Lqa
  Bool.
Import ListNotations.

Local Open Scope nat_scope.

(** * Transition model

    [MonopolySimulation.calculate_dice_probabilities] and
    [MonopolySimulation.generate_transition_matrix]. *)

(** ** A small error monad *)

Definition bind {A B : Type} (c : option A) (k : A -> option B) : option B :=
  match c with
  | Some a => k a
  | None => None
  end.

Notation "x <- c ;; k" := (bind c (fun x => k))
  (at level 61, c at next level, right associativity).

Notation "' pat <- c ;; k" := (bind c (fun x => match x with pat => k end))
  (at level 61, pat pattern, c at next level, right associativity).

(** [for x in xs: s = body x s], stopping at the first exception. *)
Fixpoint for_each {A S : Type} (xs : list A) (body : A -> S -> option S) (s : S)
  : option S :=
  match xs with
  | [] => Some s
  | x :: xs' => s' <- body x s ;; for_each xs' body s'
  end.

(** Python's [range(a, b)]. *)
Definition range (a b : nat) : list nat := seq a (b - a).

(** The value of a computation that is known to succeed. *)
Definition option_get {A : Type} (d : A) (o : option A) : A :=
  match o with
  | Some a => a
  | None => d
  end.

(** Python's [next((x for x in l if f x), default)]: the default is an
    argument, so it is evaluated (and may raise) before the search. *)
Definition next_or {A : Type} (f : A -> bool) (l : list A) (default : option A)
  : option A :=
  d <- default ;;
  match find f l with
  | Some a => Some a
  | None => Some d
  end.

(** ** Arrays *)

(** The list [l] with entry [n] replaced by [v] (unchanged when [n] is out
    of range; the callers check the range first). *)
Fixpoint set_nth {A : Type} (l : list A) (n : nat) (v : A) : list A :=
  match l, n with
  | [], _ => []
  | _ :: t, O => v :: t
  | h :: t, S n' => h :: set_nth t n' v
  end.

(** [l[j] += x] on a 1-d array. *)
Definition list_add_at (l : list Q) (j : nat) (x : Q) : option (list Q) :=
  v <- nth_error l j ;; Some (set_nth l j (v + x)%Q).

(** A 2-d array of floats, as the list of its rows. *)
Definition matrix := list (list Q).

(** [np.zeros((rows, cols))]. *)
Definition zeros (rows cols : nat) : matrix := repeat (repeat 0%Q cols) rows.

(** [matrix[i][j] += x]. *)
Definition add_at (m : matrix) (i j : nat) (x : Q) : option matrix :=
  row <- nth_error m i ;;
  row' <- list_add_at row j x ;;
  Some (set_nth m i row').

(** Reading [matrix[i][j]] where the index is known to be in range. *)
Definition get (m : matrix) (i j : nat) : Q := nth j (nth i m []) 0%Q.

(** [np.sum] of a 1-d array. *)
Definition Qsum (l : list Q) : Q := fold_right Qplus 0%Q l.

(** ** Board constants *)

Definition BOARD_SIZE : nat := 40.
Definition MAX_ROLL : nat := 12.
Definition MIN_ROLL : nat := 2.
Definition JAIL_SQUARE : nat := 10.
Definition GO_TO_JAIL_SQUARE : nat := 30.
Definition COMMUNITY_CHEST : list nat := [2; 17; 33].
Definition CHANCE : list nat := [7; 22; 36].
Definition STATIONS : list nat := [5; 15; 25; 35].
Definition UTILITIES : list nat := [12; 28].

(** [x in l] for a list of integers. *)
Definition mem (x : nat) (l : list nat) : bool := existsb (Nat.eqb x) l.

(** ** Construction of the matrix *)

(** [calculate_dice_probabilities]: counts of the 36 outcomes, then the
    entries 2..12 divided by 36. *)
Definition calculate_dice_probabilities : option (list Q) :=
  let probs := repeat 0%Q (MAX_ROLL + 1) in
  probs <- for_each (range 1 7) (fun die1 probs =>
             for_each (range 1 7) (fun die2 probs =>
               list_add_at probs (die1 + die2) 1%Q) probs) probs ;;
  for_each (range MIN_ROLL (MAX_ROLL + 1)) (fun i probs =>
    v <- nth_error probs i ;; Some (set_nth probs i (v / 36)%Q)) probs.

(** [pow(1/12, 3)]. *)
Definition three_doubles : Q := ((1 / 12) ^ 3)%Q.

(** Lines 58-60: the three-consecutive-doubles addition. *)
Definition three_doubles_update (from_square : nat) (m : matrix) : option matrix :=
  if negb (from_square =? GO_TO_JAIL_SQUARE)
  then add_at m from_square JAIL_SQUARE three_doubles
  else Some m.

(** Lines 62-96: where the roll lands, with the card effects.  Every branch
    reads [dice_probs[roll]] in each of its statements; it is read once
    here.  In the Chance branch [to_square] is at least 7, so the
    subtraction of 3 is exact on natural numbers. *)
Definition landing_update (dice_probs : list Q) (from_square roll : nat)
    (m : matrix) : option matrix :=
  let to_square := (from_square + roll) mod BOARD_SIZE in
  if to_square =? GO_TO_JAIL_SQUARE then
    p <- nth_error dice_probs roll ;;
    add_at m from_square JAIL_SQUARE p
  else if mem to_square COMMUNITY_CHEST then
    p <- nth_error dice_probs roll ;;
    m <- add_at m from_square to_square (p * 14 / 16)%Q ;;
    m <- add_at m from_square 0 (p * 1 / 16)%Q ;;
    add_at m from_square JAIL_SQUARE (p * 1 / 16)%Q
  else if mem to_square CHANCE then
    p <- nth_error dice_probs roll ;;
    m <- add_at m from_square to_square (p * 6 / 16)%Q ;;
    m <- add_at m from_square 0 (p * 1 / 16)%Q ;;
    m <- add_at m from_square 24 (p * 1 / 16)%Q ;;
    m <- add_at m from_square 39 (p * 1 / 16)%Q ;;
    m <- add_at m from_square 11 (p * 1 / 16)%Q ;;
    m <- add_at m from_square 5 (p * 1 / 16)%Q ;;
    m <- add_at m from_square JAIL_SQUARE (p * 1 / 16)%Q ;;
    let back_three := (to_square - 3) mod BOARD_SIZE in
    m <- add_at m from_square back_three (p * 1 / 16)%Q ;;
    nearest_station <-
      next_or (fun s => to_square <? s) STATIONS (nth_error STATIONS 0) ;;
    m <- add_at m from_square nearest_station (p * 1 / 8)%Q ;;
    nearest_utility <-
      next_or (fun u => to_square <? u) UTILITIES (nth_error UTILITIES 0) ;;
    add_at m from_square nearest_utility (p * 1 / 16)%Q
  else
    p <- nth_error dice_probs roll ;;
    add_at m from_square to_square p.

(** The body of the inner loop (one roll value). *)
Definition roll_body (dice_probs : list Q) (from_square roll : nat)
    (m : matrix) : option matrix :=
  m <- three_doubles_update from_square m ;;
  landing_update dice_probs from_square roll m.

(** The inner loop: all roll values for one origin square. *)
Definition row_loop (dice_probs : list Q) (from_square : nat) (m : matrix)
  : option matrix :=
  for_each (range MIN_ROLL (MAX_ROLL + 1)) (roll_body dice_probs from_square) m.

(** [generate_transition_matrix]: the two nested loops over the zero
    matrix. *)
Definition generate_transition_matrix : option matrix :=
  let matrix := zeros BOARD_SIZE BOARD_SIZE in
  dice_probs <- calculate_dice_probabilities ;;
  for_each (range 0 BOARD_SIZE) (row_loop dice_probs) matrix.

(** * Vocabulary of the transition-model properties *)

(** ** Shape and pointwise reading of updates *)

(** A matrix of [BOARD_SIZE] rows of [BOARD_SIZE] entries. *)
Definition shape (m : matrix) : Prop :=
  length m = BOARD_SIZE /\ Forall (fun row => length row = BOARD_SIZE) m.

(** The amount [x] placed at entry [(i, j)], read at entry [(a, b)]. *)
Definition delta (a b i j : nat) (x : Q) : Q :=
  if (a =? i) && (b =? j) then x else 0%Q.

(** The words of the specification for the station and utility cards: the
    nearest element of [l] with index strictly greater than [d], wrapping
    round to the smallest element of [l] when no such element remains. *)
Definition nearest_after (l : list nat) (d s : nat) : Prop :=
  In s l /\
  ((d < s /\ forall s', In s' l -> d < s' -> s <= s') \/
   ((forall s', In s' l -> s' <= d) /\ forall s', In s' l -> s <= s')).

(** The search of the source, [next((s for s in l if s > d), l[0])]. *)
Definition nearest (l : list nat) (d : nat) : nat :=
  option_get 0 (next_or (fun s => d <? s) l (nth_error l 0)).

(** ** Accumulated effect of the loops *)

(** What one roll places in column [b] of row [from_square]: the landing
    branch run on an empty matrix. *)
Definition landing_mass (dice_probs : list Q) (from_square roll b : nat) : Q :=
  get (option_get []
         (landing_update dice_probs from_square roll
            (zeros BOARD_SIZE BOARD_SIZE)))
      from_square b.

(** What the three-doubles statement places in column [b] of row
    [from_square] in one iteration. *)
Definition three_doubles_mass (from_square b : nat) : Q :=
  if (from_square =? GO_TO_JAIL_SQUARE) || negb (b =? JAIL_SQUARE)
  then 0%Q else three_doubles.

(** The sum of [f x] over the elements [x] of [l]. *)
Definition Qsum_map {A : Type} (f : A -> Q) (l : list A) : Q :=
  Qsum (map f l).

(** Everything that the construction places at entry [(i, b)]. *)
Definition row_mass (dice_probs : list Q) (i b : nat) : Q :=
  Qsum_map (fun r => (three_doubles_mass i b + landing_mass dice_probs i r b)%Q)
           (range MIN_ROLL (MAX_ROLL + 1)).

(** ** The constructed matrix as a value *)

(** The list that [calculate_dice_probabilities] returns. *)
Definition dice_table : list Q := option_get [] calculate_dice_probabilities.

(** The matrix that [generate_transition_matrix] returns. *)
Definition transition_matrix_value : matrix :=
  option_get [] generate_transition_matrix.

(** ** Postconditions of one roll, in the words of the specification *)

(** Entry [(a, b)] of [m'] is that of [m] plus what the list [adds] of
    (column, amount) pairs places in row [i]. *)
Definition row_gains (i : nat) (adds : list (nat * Q)) (m m' : matrix) : Prop :=
  forall a b,
    get m' a b ==
    get m a b + Qsum_map (fun add => delta a b i (fst add) (snd add)) adds.

(** No entry outside the columns [cols] of row [i] differs between [m] and
    [m']. *)
Definition only_columns (i : nat) (cols : list nat) (m m' : matrix) : Prop :=
  forall a b, (a <> i \/ ~ In b cols) -> get m' a b == get m a b.

(** ** Squares that a card or a forced move can send the player to *)

(** The fixed destinations written in the branches of the loop body: GO,
    Jail, the squares named on the Chance cards, the three squares that lie
    three back from a Chance square, and the stations and utilities. *)
Definition card_destinations : list nat :=
  [0; JAIL_SQUARE; 24; 39; 11; 5; 4; 19; 33] ++ STATIONS ++ UTILITIES.

(** * Chain sampler *)

(** [self.board_spaces] as set by [__init__]. *)
Definition BOARD_SPACES : list string :=
  [ "GO"; "Old Kent Road"; "Community Chest 1"; "Whitechapel Road";
    "Income Tax"; "Kings Cross Station"; "The Angel Islington"; "Chance 1";
    "Euston Road"; "Pentonville Road"; "Jail"; "Pall Mall";
    "Electric Company"; "Whitehall"; "Northumberland Avenue";
    "Marylebone Station"; "Bow Street"; "Community Chest 2";
    "Marlborough Street"; "Vine Street"; "Free Parking"; "Strand";
    "Chance 2"; "Fleet Street"; "Trafalgar Square"; "Fenchurch St Station";
    "Leicester Square"; "Coventry Street"; "Water Works"; "Piccadilly";
    "Go To Jail"; "Regent Street"; "Oxford Street"; "Community Chest 3";
    "Bond Street"; "Liverpool St Station"; "Chance 3"; "Park Lane";
    "Super Tax"; "Mayfair" ]%string.

(** A Python [dict] from square names to counts, in insertion order. *)
Definition dict := list (string * nat).

Fixpoint dict_get (d : dict) (k : string) : option nat :=
  match d with
  | [] => None
  | (k', v) :: rest => if (k' =? k)%string then Some v else dict_get rest k
  end.

(** The count recorded for [k]; a square that was never landed on has no
    entry and counts 0. *)
Definition count (d : dict) (k : string) : nat := option_get 0 (dict_get d k).

(** [landings[space] += 1] on a [defaultdict(int)]: a missing key is first
    inserted (at the end) with 0. *)
Fixpoint increment (d : dict) (k : string) : dict :=
  match d with
  | [] => [(k, 0 + 1)]
  | (k', v) :: rest =>
      if (k' =? k)%string then (k', v + 1) :: rest
      else (k', v) :: increment rest k
  end.

(** The sum of all counts of a mapping. *)
Definition dict_total (d : dict) : nat := fold_right (fun kv acc => snd kv + acc) 0 d.

(** The attributes of a [MonopolySimulation] object. *)
Record MonopolySimulation : Type := {
  board_spaces : list string;
  current_position : nat;
  landings : dict;
  move_history : list dict;
  transition_matrix : matrix;
  moves_count : nat
}.

(** [__init__]. *)
Definition init : option MonopolySimulation :=
  m <- generate_transition_matrix ;;
  Some {| board_spaces := BOARD_SPACES;
          current_position := 0;
          landings := [];
          move_history := [];
          transition_matrix := m;
          moves_count := 0 |}.

(** ** numpy's weighted choice

    [np.random.choice(a, p=p)] validates [p] and then draws by searching one
    uniform sample in the normalised cumulative sums of [p]. *)

(** [p.cumsum()], with the running sum so far. *)
Fixpoint cumsum_from (acc : Q) (p : list Q) : list Q :=
  match p with
  | [] => []
  | x :: rest => (acc + x)%Q :: cumsum_from (acc + x)%Q rest
  end.

Definition cumsum (p : list Q) : list Q := cumsum_from 0%Q p.

(** [cdf.searchsorted(u, side='right')] on an ascending array: the number of
    leading entries that are at most [u]. *)
Fixpoint searchsorted_right (cdf : list Q) (u : Q) : nat :=
  match cdf with
  | [] => 0
  | c :: rest => if Qle_bool c u then S (searchsorted_right rest u) else 0
  end.

(** [sqrt(finfo(float64).eps)], the tolerance of the sum check. *)
Definition atol : Q := (1 # 67108864)%Q.

(** The validation of [p]: same size as [a], no negative entry, sum within
    [atol] of 1. *)
Definition valid_probabilities {A : Type} (a : list A) (p : list Q) : bool :=
  negb (length a =? 0)%nat
  && (length p =? length a)%nat
  && negb (existsb (fun x => negb (Qle_bool 0 x)) p)
  && Qle_bool (Qabs (Qsum p - 1)) atol.

Section Sampler.

(** The state of the shared pseudo-random generator and its uniform draw
    in [0, 1) ([random_sample]). *)
Variable rng : Type.
Variable random_sample : rng -> Q * rng.

(** [np.random.choice(a, p=p)]: validation, then one uniform sample
    searched in the normalised cumulative sums, then [a[idx]]. *)
Definition choice {A : Type} (a : list A) (p : list Q) (g : rng)
  : option (A * rng) :=
  if valid_probabilities a p then
    let cdf := cumsum p in
    let cdf := map (fun c => (c / last cdf 0)%Q) cdf in
    let '(u, g') := random_sample g in
    let idx := searchsorted_right cdf u in
    v <- nth_error a idx ;; Some (v, g')
  else None.

(** [move]: one step of the chain.  Line 103 reads the row of the current
    square; line 106 divides it by its sum, which builds a new array and
    rebinds the local name, so the matrix itself is not written.  Dividing
    a row by a zero sum yields NaN entries, which [choice] rejects. *)
Definition move (w : rng * MonopolySimulation)
  : option (rng * MonopolySimulation) :=
  let (g, self) := w in
  row <- nth_error (transition_matrix self) (current_position self) ;;
  let total := Qsum row in
  if Qeq_bool total 0 then None else
  let current_position_probabilities := map (fun x => (x / total)%Q) row in
  '(next_position, g') <-
    choice (range 0 BOARD_SIZE) current_position_probabilities g ;;
  space <- nth_error (board_spaces self) next_position ;;
  let landings' := increment (landings self) space in
  let moves_count' := moves_count self + 1 in
  let move_history' :=
    if (moves_count' mod 100 =? 0)%nat
    then move_history self ++ [landings']
    else move_history self in
  Some (g', {| board_spaces := board_spaces self;
               current_position := next_position;
               landings := landings';
               move_history := move_history';
               transition_matrix := transition_matrix self;
               moves_count := moves_count' |}).

(** [for _ in range(num_moves): sim.move()]. *)
Definition run_moves (num_moves : nat) (w : rng * MonopolySimulation)
  : option (rng * MonopolySimulation) :=
  for_each (range 0 num_moves) (fun _ => move) w.

(** The squares visited by [num_moves] calls of [move], in order. *)
Fixpoint visited (num_moves : nat) (w : rng * MonopolySimulation)
  : option (list nat) :=
  match num_moves with
  | O => Some []
  | S n =>
      w' <- move w ;;
      rest <- visited n w' ;;
      Some (current_position (snd w') :: rest)
  end.

(** The first [n] uniform samples that the generator yields from [g]. *)
Fixpoint draws (n : nat) (g : rng) : list Q :=
  match n with
  | O => []
  | S n' => let (u, g') := random_sample g in u :: draws n' g'
  end.

End Sampler.

Arguments choice {rng} random_sample {A} a p g.
Arguments move {rng} random_sample w.
Arguments run_moves {rng} random_sample num_moves w.
Arguments visited {rng} random_sample num_moves w.
Arguments draws {rng} random_sample n g.

(** ** The exported table *)

(** A [DataFrame] of counts: column labels and one row per snapshot. *)
Record DataFrame : Type := {
  columns : list string;
  rows : list (list nat)
}.

(** The column labels of [pd.DataFrame(records)]: the keys of the records in
    order of first appearance. *)
Definition record_keys (records : list dict) : list string :=
  fold_left
    (fun acc d =>
       fold_left
         (fun acc kv =>
            if existsb (String.eqb (fst kv)) acc then acc
            else acc ++ [fst kv])
         d acc)
    records [].

Fixpoint insert_sorted (k : string) (l : list string) : list string :=
  match l with
  | [] => [k]
  | h :: t => if String.leb k h then k :: l else h :: insert_sorted k t
  end.

(** Python's [sorted] on strings. *)
Definition sorted (l : list string) : list string :=
  fold_right insert_sorted [] l.

(** [save_to_csv]: the frame built from the history, missing cells filled
    with 0, columns in sorted order.  Writing the file is outside the
    model. *)
Definition save_to_csv (self : MonopolySimulation) : DataFrame :=
  let cols := sorted (record_keys (move_history self)) in
  {| columns := cols;
     rows := map (fun d => map (count d) cols) (move_history self) |}.

(** [run_simulation]. *)
Definition run_simulation {rng : Type} (random_sample : rng -> Q * rng)
    (num_moves : nat) (g : rng) : option (rng * DataFrame) :=
  sim <- init ;;
  '(g', sim) <- run_moves random_sample num_moves (g, sim) ;;
  Some (g', save_to_csv sim).

(** ** A concrete random source and a small example state *)

(** A linear congruential generator, as a concrete instance of the random
    source: the state is the last output, the sample is [state / 2^31]. *)
Definition lcg_sample (g : Z) : Q * Z :=
  let g' := ((1103515245 * g + 12345) mod 2147483648)%Z in
  (g' # 2147483648, g').

(** A simulation object whose every row moves to square 0 or square 2 with
    probability 1/2 each. *)
Definition demo_state : MonopolySimulation :=
  {| board_spaces := BOARD_SPACES;
     current_position := 0;
     landings := [];
     move_history := [];
     transition_matrix :=
       repeat ([1 # 2; 0; 1 # 2]%Q ++ repeat 0%Q 37) BOARD_SIZE;
     moves_count := 0 |}.

(** * Vocabulary of the sampler properties *)

(** ** Dictionaries of counts *)

(** Every key of [d1] is a key of [d2] with a count at least as large. *)
Definition dict_le (d1 d2 : dict) : Prop :=
  forall k v, dict_get d1 k = Some v ->
    exists v', dict_get d2 k = Some v' /\ v <= v'.

(** Each snapshot is a non-decreasing superset of every earlier one, in
    particular of the one just before it. *)
Definition non_decreasing_history (h : list dict) : Prop :=
  forall j1 j2 d1 d2,
    j1 < j2 ->
    nth_error h j1 = Some d1 -> nth_error h j2 = Some d2 -> dict_le d1 d2.

(** ** One step of the chain *)

(** The state after landing on square [next], named [space]. *)
Definition landed (self : MonopolySimulation) (next : nat) (space : string)
  : MonopolySimulation :=
  let landings' := increment (landings self) space in
  let moves_count' := moves_count self + 1 in
  {| board_spaces := board_spaces self;
     current_position := next;
     landings := landings';
     move_history :=
       if moves_count' mod 100 =? 0
       then move_history self ++ [landings']
       else move_history self;
     transition_matrix := transition_matrix self;
     moves_count := moves_count' |}.

(** The simulation object holds the board and the constructed matrix and
    stands on a square of the board. *)
Definition ready (self : MonopolySimulation) : Prop :=
  board_spaces self = BOARD_SPACES /\
  transition_matrix self = transition_matrix_value /\
  current_position self < BOARD_SIZE.

(** ** Invariant of a run *)

(** What holds of the simulation object after [k] calls of [move] from the
    freshly constructed object. *)
Definition sampled (k : nat) (self : MonopolySimulation) : Prop :=
  ready self /\
  moves_count self = k /\
  dict_total (landings self) = k /\
  length (move_history self) = k / 100 /\
  non_decreasing_history (move_history self) /\
  Forall (fun d => dict_le d (landings self)) (move_history self) /\
  current_position self <> GO_TO_JAIL_SQUARE /\
  count (landings self) "Go To Jail" = 0 /\
  Forall (fun d => count d "Go To Jail" = 0) (move_history self) /\
  NoDup (map fst (landings self)) /\
  incl (map fst (landings self)) BOARD_SPACES.

(** The object that [__init__] builds. *)
Definition initial_state : MonopolySimulation :=
  {| board_spaces := BOARD_SPACES;
     current_position := 0;
     landings := [];
     move_history := [];
     transition_matrix := transition_matrix_value;
     moves_count := 0 |}.

(** ** Bookkeeping of the counters *)

(** The landing mapping has distinct keys and positive counts that add up
    to the move counter; there is one snapshot per hundred moves, each with
    distinct keys, and the [j]-th snapshot (from 0) adds up to
    [100 * (j + 1)]. *)
Definition snapshots_sound (self : MonopolySimulation) : Prop :=
  NoDup (map fst (landings self)) /\
  Forall (fun kv => 0 < snd kv) (landings self) /\
  dict_total (landings self) = moves_count self /\
  length (move_history self) = moves_count self / 100 /\
  Forall (fun d => NoDup (map fst d)) (move_history self) /\
  map dict_total (move_history self) =
    map (fun j => 100 * (j + 1)) (seq 0 (length (move_history self))).

(** * Properties *)

(** ** Arrays and single updates *)

Lemma length_set_nth {A} (l : list A) n v : length (set_nth l n v) = length l.
Proof.
  revert n; induction l as [|h t IH]; intros [|n]; simpl; auto.
Qed.

Lemma nth_set_nth {A} (l : list A) n v k d :
  nth k (set_nth l n v) d =
  if (k =? n) && (k <? length l) then v else nth k l d.
Proof.
  revert n k; induction l as [|h t IH]; intros n k.
  - destruct n, k; simpl; try reflexivity;
      rewrite ?andb_false_r; reflexivity.
  - destruct n as [|n], k as [|k]; simpl; try reflexivity.
    rewrite IH. reflexivity.
Qed.

Lemma Forall_set_nth {A} (P : A -> Prop) l n v :
  Forall P l -> P v -> Forall P (set_nth l n v).
Proof.
  intros Hl Hv; revert n; induction Hl; intros [|n]; simpl; auto.
Qed.

Lemma shape_row m i row :
  shape m -> nth_error m i = Some row -> length row = BOARD_SIZE.
Proof.
  intros [_ HF] E. rewrite Forall_forall in HF.
  apply HF. eapply nth_error_In; eauto.
Qed.

Lemma nth_error_in_range {A} (l : list A) n :
  n < length l -> exists v, nth_error l n = Some v.
Proof.
  intros H. destruct (nth_error l n) eqn:E; eauto.
  apply nth_error_None in E. lia.
Qed.

Lemma add_at_spec m i j x :
  shape m -> i < BOARD_SIZE -> j < BOARD_SIZE ->
  exists m', add_at m i j x = Some m' /\ shape m' /\
    forall a b, get m' a b == get m a b + delta a b i j x.
Proof.
  intros Hs Hi Hj. pose proof Hs as [Hlen HF].
  destruct (nth_error_in_range m i) as [row Er]; [lia|].
  pose proof (shape_row _ _ _ Hs Er) as Hrow.
  destruct (nth_error_in_range row j) as [v Ev]; [lia|].
  unfold add_at, list_add_at. rewrite Er; simpl. rewrite Ev; simpl.
  eexists; split; [reflexivity|]. split.
  - split.
    + rewrite length_set_nth; assumption.
    + apply Forall_set_nth; auto. rewrite length_set_nth; assumption.
  - intros a b. unfold get, delta. rewrite nth_set_nth.
    destruct (Nat.eqb_spec a i) as [->|Hai]; simpl.
    + assert (Hlt : (i <? length m) = true) by (apply Nat.ltb_lt; lia).
      rewrite Hlt. rewrite (nth_error_nth _ _ [] Er), nth_set_nth.
      destruct (Nat.eqb_spec b j) as [->|Hbj]; simpl.
      * assert (Hlt' : (j <? length row) = true) by (apply Nat.ltb_lt; lia).
        rewrite Hlt', (nth_error_nth _ _ 0%Q Ev). reflexivity.
      * ring.
    + ring.
Qed.

(** ** The dice distribution *)

Lemma dice_probabilities_value :
  calculate_dice_probabilities =
  Some [0; 0; 1#36; 2#36; 3#36; 4#36; 5#36; 6#36; 5#36; 4#36; 3#36; 2#36; 1#36]%Q.
Proof. vm_compute. reflexivity. Qed.

Lemma dice_probs_lookup dice_probs r :
  calculate_dice_probabilities = Some dice_probs ->
  MIN_ROLL <= r <= MAX_ROLL ->
  nth_error dice_probs r = Some (nth r dice_probs 0%Q).
Proof.
  rewrite dice_probabilities_value. intros [= <-] [Hlo Hhi].
  apply nth_error_nth'. unfold MAX_ROLL in Hhi. simpl. lia.
Qed.

(** ** One roll: effect of each branch of the loop body *)

Lemma mem_In x l : mem x l = true <-> In x l.
Proof.
  unfold mem. rewrite existsb_exists. split.
  - intros (y & Hy & E). apply Nat.eqb_eq in E. subst. assumption.
  - intros H. exists x. split; [assumption | apply Nat.eqb_refl].
Qed.

Ltac eval_tests :=
  repeat match goal with
  | |- context [if ?c then _ else _] =>
      let v := eval vm_compute in c in
      change c with v; cbv iota
  end.

Ltac eval_searches :=
  repeat match goal with
  | |- context [next_or ?f ?l ?d] =>
      let v := eval vm_compute in (next_or f l d) in
      change (next_or f l d) with v
  end.

(** Runs the leading [matrix[i][j] += x] of the goal symbolically. *)
Ltac step_add :=
  match goal with
  | Hs : shape ?m |- context [add_at ?m ?i ?j ?x] =>
      let m' := fresh "m" in
      let E := fresh "E" in
      let S := fresh "Hsh" in
      let G := fresh "G" in
      destruct (add_at_spec m i j x) as (m' & E & S & G);
      [ exact Hs | unfold BOARD_SIZE, JAIL_SQUARE in *; lia
      | unfold BOARD_SIZE, JAIL_SQUARE in *; lia | ];
      rewrite E; cbn [bind]; clear E
  end.

Ltac chain_reads :=
  repeat match goal with
  | G : forall a b, get ?m a b == _ |- context [get ?m ?a ?b] =>
      rewrite (G a b); clear G
  end.

Lemma landing_go_to_jail dice_probs i r p m :
  shape m -> i < BOARD_SIZE -> nth_error dice_probs r = Some p ->
  (i + r) mod BOARD_SIZE = GO_TO_JAIL_SQUARE ->
  exists m', landing_update dice_probs i r m = Some m' /\ shape m' /\
    forall a b, get m' a b == get m a b + delta a b i JAIL_SQUARE p.
Proof.
  intros Hs Hi Hp Hd. unfold landing_update. rewrite Hd, Hp.
  eval_tests. cbn [bind]. step_add.
  eexists; split; [reflexivity|]; split; assumption.
Qed.

Lemma landing_community_chest dice_probs i r p m :
  shape m -> i < BOARD_SIZE -> nth_error dice_probs r = Some p ->
  mem ((i + r) mod BOARD_SIZE) COMMUNITY_CHEST = true ->
  exists m', landing_update dice_probs i r m = Some m' /\ shape m' /\
    forall a b, get m' a b ==
      get m a b + delta a b i ((i + r) mod BOARD_SIZE) (p * 14 / 16)
                + delta a b i 0 (p * 1 / 16)
                + delta a b i JAIL_SQUARE (p * 1 / 16).
Proof.
  intros Hs Hi Hp Hd. unfold landing_update.
  assert (Hlt : (i + r) mod BOARD_SIZE < BOARD_SIZE)
    by (apply Nat.mod_upper_bound; discriminate).
  remember ((i + r) mod BOARD_SIZE) as d eqn:Ed.
  assert (Hcases : d = 2 \/ d = 17 \/ d = 33).
  { apply mem_In in Hd. simpl in Hd. intuition lia. }
  rewrite Hp.
  destruct Hcases as [-> | [-> | ->]]; eval_tests; cbn [bind];
    do 3 step_add;
    (eexists; split; [reflexivity|]; split; [assumption|]);
    intros a b; chain_reads; reflexivity.
Qed.

Lemma nearest_is_nearest_after d :
  mem d CHANCE = true ->
  nearest_after STATIONS d (nearest STATIONS d) /\
  nearest_after UTILITIES d (nearest UTILITIES d).
Proof.
  intros Hd. apply mem_In in Hd. simpl in Hd.
  destruct Hd as [<- | [<- | [<- | []]]];
    repeat match goal with
    | |- context [nearest ?l ?x] =>
        let v := eval vm_compute in (nearest l x) in
        change (nearest l x) with v
    end;
    unfold nearest_after; simpl; intuition lia.
Qed.

Lemma landing_chance dice_probs i r p m :
  shape m -> i < BOARD_SIZE -> nth_error dice_probs r = Some p ->
  mem ((i + r) mod BOARD_SIZE) CHANCE = true ->
  exists m', landing_update dice_probs i r m = Some m' /\ shape m' /\
    forall a b, get m' a b ==
      get m a b + delta a b i ((i + r) mod BOARD_SIZE) (p * 6 / 16)
                + delta a b i 0 (p * 1 / 16)
                + delta a b i 24 (p * 1 / 16)
                + delta a b i 39 (p * 1 / 16)
                + delta a b i 11 (p * 1 / 16)
                + delta a b i 5 (p * 1 / 16)
                + delta a b i JAIL_SQUARE (p * 1 / 16)
                + delta a b i (((i + r) mod BOARD_SIZE - 3) mod BOARD_SIZE)
                    (p * 1 / 16)
                + delta a b i (nearest STATIONS ((i + r) mod BOARD_SIZE))
                    (p * 1 / 8)
                + delta a b i (nearest UTILITIES ((i + r) mod BOARD_SIZE))
                    (p * 1 / 16).
Proof.
  intros Hs Hi Hp Hd. unfold landing_update.
  remember ((i + r) mod BOARD_SIZE) as d eqn:Ed.
  assert (Hcases : d = 7 \/ d = 22 \/ d = 36).
  { apply mem_In in Hd. simpl in Hd. intuition lia. }
  rewrite Hp. clear Hd.
  destruct Hcases as [-> | [-> | ->]];
    eval_tests; eval_searches; cbn [bind];
    match goal with
    | |- context [(?x - 3) mod BOARD_SIZE] =>
        let v := eval vm_compute in ((x - 3) mod BOARD_SIZE) in
        change ((x - 3) mod BOARD_SIZE) with v
    end;
    do 10 step_add;
    (eexists; split; [reflexivity|]; split; [assumption|]);
    intros a b; chain_reads; reflexivity.
Qed.

Lemma landing_plain dice_probs i r p m :
  shape m -> i < BOARD_SIZE -> nth_error dice_probs r = Some p ->
  (i + r) mod BOARD_SIZE <> GO_TO_JAIL_SQUARE ->
  mem ((i + r) mod BOARD_SIZE) COMMUNITY_CHEST = false ->
  mem ((i + r) mod BOARD_SIZE) CHANCE = false ->
  exists m', landing_update dice_probs i r m = Some m' /\ shape m' /\
    forall a b, get m' a b ==
      get m a b + delta a b i ((i + r) mod BOARD_SIZE) p.
Proof.
  intros Hs Hi Hp Hj Hcc Hch. unfold landing_update.
  assert (Hlt : (i + r) mod BOARD_SIZE < BOARD_SIZE)
    by (apply Nat.mod_upper_bound; discriminate).
  apply Nat.eqb_neq in Hj. rewrite Hj, Hcc, Hch, Hp. cbn [bind].
  step_add. eexists; split; [reflexivity|]; split; assumption.
Qed.

Lemma three_doubles_spec i m :
  shape m -> i < BOARD_SIZE ->
  exists m', three_doubles_update i m = Some m' /\ shape m' /\
    forall a b, get m' a b ==
      get m a b + (if i =? GO_TO_JAIL_SQUARE then 0
                   else delta a b i JAIL_SQUARE three_doubles).
Proof.
  intros Hs Hi. unfold three_doubles_update.
  destruct (i =? GO_TO_JAIL_SQUARE); cbn [negb].
  - exists m. split; [reflexivity|]. split; [assumption|].
    intros a b. ring.
  - step_add. eexists; split; [reflexivity|]; split; assumption.
Qed.

(** ** Accumulated effect of the loops *)

Lemma shape_zeros : shape (zeros BOARD_SIZE BOARD_SIZE).
Proof.
  split; [reflexivity|]. unfold zeros. apply Forall_forall.
  intros row Hin. apply repeat_spec in Hin. subst. apply repeat_length.
Qed.

Lemma get_zeros a b : get (zeros BOARD_SIZE BOARD_SIZE) a b = 0%Q.
Proof.
  unfold get, zeros.
  destruct (Nat.lt_ge_cases a BOARD_SIZE) as [Hlt|Hge].
  - rewrite (nth_error_nth _ _ [] (nth_error_repeat _ Hlt)).
    apply nth_repeat.
  - replace (nth a (repeat (repeat 0%Q BOARD_SIZE) BOARD_SIZE) []) with (@nil Q).
    + destruct b; reflexivity.
    + symmetry. apply nth_overflow. rewrite repeat_length. assumption.
Qed.

Lemma delta_other a b i j x : a <> i -> delta a b i j x = 0%Q.
Proof.
  intros H. unfold delta. apply Nat.eqb_neq in H. rewrite H. reflexivity.
Qed.

Section Rolls.

Variable dice_probs : list Q.
Hypothesis dice_probs_computed :
  calculate_dice_probabilities = Some dice_probs.

Lemma landing_update_spec i r m :
  shape m -> i < BOARD_SIZE -> MIN_ROLL <= r <= MAX_ROLL ->
  exists m', landing_update dice_probs i r m = Some m' /\ shape m' /\
    forall a b, get m' a b ==
      get m a b + (if a =? i then landing_mass dice_probs i r b else 0).
Proof.
  intros Hs Hi Hr.
  pose proof (dice_probs_lookup _ _ dice_probs_computed Hr) as Hp.
  pose proof shape_zeros as Hz.
  set (d := (i + r) mod BOARD_SIZE).
  assert (Hfinish : forall m' z',
    landing_update dice_probs i r m = Some m' -> shape m' ->
    landing_update dice_probs i r (zeros BOARD_SIZE BOARD_SIZE) = Some z' ->
    (forall a b, a <> i -> get z' a b == 0) ->
    (forall a b, get m' a b == get m a b + get z' a b) ->
    exists m', landing_update dice_probs i r m = Some m' /\ shape m' /\
      forall a b, get m' a b ==
        get m a b + (if a =? i then landing_mass dice_probs i r b else 0)).
  { intros m' z' E Hs' Ez Hoff G. exists m'.
    split; [assumption|]. split; [assumption|]. intros a b.
    unfold landing_mass. rewrite Ez. cbn [option_get].
    rewrite G. destruct (Nat.eqb_spec a i) as [->|Hne].
    - reflexivity.
    - rewrite (Hoff a b Hne). reflexivity. }
  destruct (Nat.eq_dec d GO_TO_JAIL_SQUARE) as [Hj|Hj].
  { destruct (landing_go_to_jail _ _ _ _ m Hs Hi Hp Hj) as (m' & E & Hs' & G).
    destruct (landing_go_to_jail _ _ _ _ _ Hz Hi Hp Hj) as (z' & Ez & _ & Gz).
    apply (Hfinish m' z'); auto; intros a b; [intros Hne|];
      rewrite ?G, Gz, get_zeros, ?delta_other by assumption; ring. }
  destruct (mem d COMMUNITY_CHEST) eqn:Hcc.
  { destruct (landing_community_chest _ _ _ _ m Hs Hi Hp Hcc)
      as (m' & E & Hs' & G).
    destruct (landing_community_chest _ _ _ _ _ Hz Hi Hp Hcc)
      as (z' & Ez & _ & Gz).
    apply (Hfinish m' z'); auto; intros a b; [intros Hne|];
      rewrite ?G, Gz, get_zeros, ?delta_other by assumption; ring. }
  destruct (mem d CHANCE) eqn:Hch.
  { destruct (landing_chance _ _ _ _ m Hs Hi Hp Hch) as (m' & E & Hs' & G).
    destruct (landing_chance _ _ _ _ _ Hz Hi Hp Hch) as (z' & Ez & _ & Gz).
    apply (Hfinish m' z'); auto; intros a b; [intros Hne|];
      rewrite ?G, Gz, get_zeros, ?delta_other by assumption; ring. }
  destruct (landing_plain _ _ _ _ m Hs Hi Hp Hj Hcc Hch) as (m' & E & Hs' & G).
  destruct (landing_plain _ _ _ _ _ Hz Hi Hp Hj Hcc Hch) as (z' & Ez & _ & Gz).
  apply (Hfinish m' z'); auto; intros a b; [intros Hne|];
    rewrite ?G, Gz, get_zeros, ?delta_other by assumption; ring.
Qed.

(** One iteration of the inner loop. *)
Lemma roll_body_spec i r m :
  shape m -> i < BOARD_SIZE -> MIN_ROLL <= r <= MAX_ROLL ->
  exists m', roll_body dice_probs i r m = Some m' /\ shape m' /\
    forall a b, get m' a b ==
      get m a b +
      (if a =? i
       then three_doubles_mass i b + landing_mass dice_probs i r b
       else 0).
Proof.
  intros Hs Hi Hr. unfold roll_body.
  destruct (three_doubles_spec i m Hs Hi) as (m1 & E1 & Hs1 & G1).
  destruct (landing_update_spec i r m1 Hs1 Hi Hr) as (m2 & E2 & Hs2 & G2).
  rewrite E1. cbn [bind]. exists m2.
  split; [assumption|]. split; [assumption|]. intros a b.
  rewrite G2, G1. unfold three_doubles_mass, delta.
  destruct (a =? i) eqn:Ea, (i =? GO_TO_JAIL_SQUARE), (b =? JAIL_SQUARE);
    cbn [andb orb negb]; ring.
Qed.

(** The inner loop over any list of admissible roll values. *)
Lemma rolls_spec i rolls : forall m,
  shape m -> i < BOARD_SIZE ->
  Forall (fun r => MIN_ROLL <= r <= MAX_ROLL) rolls ->
  exists m', for_each rolls (roll_body dice_probs i) m = Some m' /\
    shape m' /\
    forall a b, get m' a b ==
      get m a b +
      (if a =? i
       then Qsum_map
              (fun r => (three_doubles_mass i b + landing_mass dice_probs i r b)%Q)
              rolls
       else 0).
Proof.
  induction rolls as [|r rolls IH]; intros m Hs Hi Hall.
  - exists m. split; [reflexivity|]. split; [assumption|].
    intros a b. unfold Qsum_map; simpl. destruct (a =? i); ring.
  - inversion Hall as [|? ? Hr Hrest]; subst.
    destruct (roll_body_spec i r m Hs Hi Hr) as (m1 & E1 & Hs1 & G1).
    destruct (IH m1 Hs1 Hi Hrest) as (m2 & E2 & Hs2 & G2).
    exists m2. split; [simpl; rewrite E1; exact E2|].
    split; [assumption|]. intros a b. rewrite G2, G1.
    unfold Qsum_map; simpl. destruct (a =? i); ring.
Qed.

Lemma row_loop_spec i m :
  shape m -> i < BOARD_SIZE ->
  exists m', row_loop dice_probs i m = Some m' /\ shape m' /\
    forall a b, get m' a b ==
      get m a b + (if a =? i then row_mass dice_probs i b else 0).
Proof.
  intros Hs Hi. apply rolls_spec; try assumption.
  apply Forall_forall. intros r Hr. apply in_seq in Hr.
  unfold MIN_ROLL, MAX_ROLL in *. lia.
Qed.

(** The outer loop over any duplicate-free list of origin squares. *)
Lemma rows_spec rows : forall m,
  shape m -> NoDup rows -> Forall (fun i => i < BOARD_SIZE) rows ->
  exists m', for_each rows (row_loop dice_probs) m = Some m' /\ shape m' /\
    forall a b, get m' a b ==
      get m a b + (if mem a rows then row_mass dice_probs a b else 0).
Proof.
  induction rows as [|i rows IH]; intros m Hs Hnd Hall.
  - exists m. split; [reflexivity|]. split; [assumption|].
    intros a b. simpl. ring.
  - inversion Hall as [|? ? Hi Hrest]; subst.
    inversion Hnd as [|? ? Hnotin Hnd']; subst.
    destruct (row_loop_spec i m Hs Hi) as (m1 & E1 & Hs1 & G1).
    destruct (IH m1 Hs1 Hnd' Hrest) as (m2 & E2 & Hs2 & G2).
    exists m2. split; [simpl; rewrite E1; exact E2|].
    split; [assumption|]. intros a b. rewrite G2, G1.
    unfold mem at 2. cbn [existsb]. fold (mem a rows).
    destruct (Nat.eqb_spec a i) as [->|Hne]; cbn [orb].
    + destruct (mem i rows) eqn:Hm.
      * apply mem_In in Hm. contradiction.
      * ring.
    + ring.
Qed.

(** The constructed matrix, entry by entry. *)
Lemma generate_spec :
  exists M, generate_transition_matrix = Some M /\ shape M /\
    forall i b, i < BOARD_SIZE -> get M i b == row_mass dice_probs i b.
Proof.
  unfold generate_transition_matrix. rewrite dice_probs_computed.
  cbn [bind].
  destruct (rows_spec (range 0 BOARD_SIZE) (zeros BOARD_SIZE BOARD_SIZE))
    as (M & E & Hs & G).
  - apply shape_zeros.
  - apply seq_NoDup.
  - apply Forall_forall. intros i Hi. apply in_seq in Hi.
    unfold BOARD_SIZE in *. lia.
  - exists M. split; [assumption|]. split; [assumption|].
    intros i b Hi. rewrite G, get_zeros.
    assert (Hm : mem i (range 0 BOARD_SIZE) = true).
    { apply mem_In. apply in_seq. unfold BOARD_SIZE in *. lia. }
    rewrite Hm. ring.
Qed.

End Rolls.

(** ** The constructed matrix as a value *)

Lemma dice_table_computed : calculate_dice_probabilities = Some dice_table.
Proof. vm_compute. reflexivity. Qed.

Lemma generate_value : generate_transition_matrix = Some transition_matrix_value.
Proof. vm_compute. reflexivity. Qed.

Lemma forallb_below n (f : nat -> bool) :
  forallb f (seq 0 n) = true -> forall i, i < n -> f i = true.
Proof.
  intros H i Hi. rewrite forallb_forall in H. apply H, in_seq. lia.
Qed.

(** ** Postconditions of one roll *)

Lemma gains_elsewhere a b i adds :
  a <> i \/ ~ In b (map fst adds) ->
  Qsum_map (fun add => delta a b i (fst add) (snd add)) adds == 0.
Proof.
  unfold Qsum_map. induction adds as [|[j x] adds IH]; simpl; intros Hab.
  - reflexivity.
  - rewrite IH by tauto. unfold delta.
    destruct (Nat.eqb_spec a i) as [->|Hne]; cbn [andb]; [|ring].
    destruct (Nat.eqb_spec b j) as [->|Hbj]; [|ring].
    exfalso. tauto.
Qed.

Lemma row_gains_only_columns i adds m m' :
  row_gains i adds m m' -> only_columns i (map fst adds) m m'.
Proof.
  intros G a b Hab. rewrite (G a b), (gains_elsewhere a b i adds Hab). ring.
Qed.

Lemma Qsum_map_shift {A : Type} (c : Q) (f : A -> Q) (l : list A) :
  Qsum_map (fun x => (c + f x)%Q) l ==
  inject_Z (Z.of_nat (length l)) * c + Qsum_map f l.
Proof.
  unfold Qsum_map. induction l as [|x l IH].
  - simpl. ring.
  - cbn [map Qsum fold_right length]. fold (Qsum (map f l)).
    fold (Qsum (map (fun x => (c + f x)%Q) l)). rewrite IH.
    rewrite Nat2Z.inj_succ. unfold Z.succ. rewrite inject_Z_plus. ring.
Qed.

Lemma generated_is_value dice_probs M :
  calculate_dice_probabilities = Some dice_probs ->
  generate_transition_matrix = Some M ->
  dice_probs = dice_table /\ M = transition_matrix_value.
Proof.
  intros Hdp HM. unfold dice_table, transition_matrix_value.
  rewrite Hdp, HM. split; reflexivity.
Qed.

(** * Claims about the transition model *)

(** C6. A roll whose raw destination is the Go To Jail square adds the whole
    roll probability [dice_probs[r]] to [matrix[i][10]] (Jail) and leaves
    [matrix[i][30]], like every other entry, as it was. *)
Theorem go_to_jail_routing dice_probs i r m :
  calculate_dice_probabilities = Some dice_probs ->
  shape m -> i < BOARD_SIZE -> MIN_ROLL <= r <= MAX_ROLL ->
  (i + r) mod BOARD_SIZE = GO_TO_JAIL_SQUARE ->
  let p := nth r dice_probs 0%Q in
  exists m', landing_update dice_probs i r m = Some m' /\
    row_gains i [(JAIL_SQUARE, p)] m m' /\
    get m' i JAIL_SQUARE == get m i JAIL_SQUARE + p /\
    get m' i GO_TO_JAIL_SQUARE == get m i GO_TO_JAIL_SQUARE /\
    only_columns i [JAIL_SQUARE] m m'.
Proof.
  intros Hdp Hs Hi Hr Hd p.
  pose proof (dice_probs_lookup _ _ Hdp Hr) as Hp.
  destruct (landing_go_to_jail _ _ _ _ m Hs Hi Hp Hd) as (m' & E & _ & G).
  assert (Hg : row_gains i [(JAIL_SQUARE, p)] m m').
  { intros a b. rewrite G. unfold Qsum_map, Qsum; cbn [map fold_right fst snd].
    subst p; try subst d; ring. }
  pose proof (row_gains_only_columns _ _ _ _ Hg) as Ho.
  exists m'. repeat split; try assumption.
  - rewrite G. unfold delta. rewrite !Nat.eqb_refl. reflexivity.
  - apply Ho. right. simpl. unfold JAIL_SQUARE, GO_TO_JAIL_SQUARE. lia.
Qed.

Lemma go_to_jail_routing_witness :
  let p := nth 10 dice_table 0%Q in
  exists m',
    landing_update dice_table 20 10 (zeros BOARD_SIZE BOARD_SIZE) = Some m' /\
    row_gains 20 [(JAIL_SQUARE, p)] (zeros BOARD_SIZE BOARD_SIZE) m' /\
    get m' 20 JAIL_SQUARE == get (zeros BOARD_SIZE BOARD_SIZE) 20 JAIL_SQUARE + p /\
    get m' 20 GO_TO_JAIL_SQUARE ==
      get (zeros BOARD_SIZE BOARD_SIZE) 20 GO_TO_JAIL_SQUARE /\
    only_columns 20 [JAIL_SQUARE] (zeros BOARD_SIZE BOARD_SIZE) m'.
Proof.
  apply (go_to_jail_routing dice_table 20 10 (zeros BOARD_SIZE BOARD_SIZE)).
  - exact dice_table_computed.
  - exact shape_zeros.
  - unfold BOARD_SIZE; lia.
  - unfold MIN_ROLL, MAX_ROLL; lia.
  - reflexivity.
Defined.

(** C5. A roll whose raw destination [d] is a Community-Chest square splits
    the roll probability into 14/16 for [matrix[i][d]], 1/16 for
    [matrix[i][0]] (GO) and 1/16 for [matrix[i][10]] (Jail); the three parts
    make up the roll probability and no other entry changes. *)
Theorem community_chest_split dice_probs i r m :
  calculate_dice_probabilities = Some dice_probs ->
  shape m -> i < BOARD_SIZE -> MIN_ROLL <= r <= MAX_ROLL ->
  mem ((i + r) mod BOARD_SIZE) COMMUNITY_CHEST = true ->
  let d := (i + r) mod BOARD_SIZE in
  let p := nth r dice_probs 0%Q in
  exists m', landing_update dice_probs i r m = Some m' /\
    row_gains i
      [(d, (p * 14 / 16)%Q); (0, (p * 1 / 16)%Q); (JAIL_SQUARE, (p * 1 / 16)%Q)] m m' /\
    only_columns i [d; 0; JAIL_SQUARE] m m' /\
    p * 14 / 16 + p * 1 / 16 + p * 1 / 16 == p.
Proof.
  intros Hdp Hs Hi Hr Hd d p.
  pose proof (dice_probs_lookup _ _ Hdp Hr) as Hp.
  destruct (landing_community_chest _ _ _ _ m Hs Hi Hp Hd) as (m' & E & _ & G).
  assert (Hg : row_gains i
    [(d, (p * 14 / 16)%Q); (0, (p * 1 / 16)%Q); (JAIL_SQUARE, (p * 1 / 16)%Q)] m m').
  { intros a b. rewrite G. unfold Qsum_map, Qsum; cbn [map fold_right fst snd].
    subst p; try subst d; ring. }
  exists m'. split; [assumption|]. split; [assumption|]. split.
  - exact (row_gains_only_columns _ _ _ _ Hg).
  - field.
Qed.

Lemma community_chest_split_witness :
  let d := (0 + 2) mod BOARD_SIZE in
  let p := nth 2 dice_table 0%Q in
  exists m',
    landing_update dice_table 0 2 (zeros BOARD_SIZE BOARD_SIZE) = Some m' /\
    row_gains 0
      [(d, (p * 14 / 16)%Q); (0, (p * 1 / 16)%Q); (JAIL_SQUARE, (p * 1 / 16)%Q)]
      (zeros BOARD_SIZE BOARD_SIZE) m' /\
    only_columns 0 [d; 0; JAIL_SQUARE] (zeros BOARD_SIZE BOARD_SIZE) m' /\
    p * 14 / 16 + p * 1 / 16 + p * 1 / 16 == p.
Proof.
  apply (community_chest_split dice_table 0 2 (zeros BOARD_SIZE BOARD_SIZE)).
  - exact dice_table_computed.
  - exact shape_zeros.
  - unfold BOARD_SIZE; lia.
  - unfold MIN_ROLL, MAX_ROLL; lia.
  - reflexivity.
Defined.

(** C4. A roll whose raw destination [d] is a Chance square splits the roll
    probability over the documented destinations only: 6/16 to [d], 1/16
    each to squares 0, 24, 39, 11, 5, Jail (10) and [(d - 3) mod 40], 1/8 to
    the nearest station after [d] and 1/16 to the nearest utility after [d]
    (both with wrap-around); the parts make up the roll probability and no
    other entry changes. *)
Theorem chance_split dice_probs i r m :
  calculate_dice_probabilities = Some dice_probs ->
  shape m -> i < BOARD_SIZE -> MIN_ROLL <= r <= MAX_ROLL ->
  mem ((i + r) mod BOARD_SIZE) CHANCE = true ->
  let d := (i + r) mod BOARD_SIZE in
  let p := nth r dice_probs 0%Q in
  exists station utility m',
    nearest_after STATIONS d station /\
    nearest_after UTILITIES d utility /\
    landing_update dice_probs i r m = Some m' /\
    row_gains i
      [(d, (p * 6 / 16)%Q); (0, (p * 1 / 16)%Q); (24, (p * 1 / 16)%Q); (39, (p * 1 / 16)%Q);
       (11, (p * 1 / 16)%Q); (5, (p * 1 / 16)%Q); (JAIL_SQUARE, (p * 1 / 16)%Q);
       ((d - 3) mod BOARD_SIZE, (p * 1 / 16)%Q);
       (station, (p * 1 / 8)%Q); (utility, (p * 1 / 16)%Q)] m m' /\
    only_columns i
      [d; 0; 24; 39; 11; 5; JAIL_SQUARE; (d - 3) mod BOARD_SIZE;
       station; utility] m m' /\
    p * 6 / 16 + p * 1 / 16 + p * 1 / 16 + p * 1 / 16 + p * 1 / 16
      + p * 1 / 16 + p * 1 / 16 + p * 1 / 16 + p * 1 / 8 + p * 1 / 16 == p.
Proof.
  intros Hdp Hs Hi Hr Hd d p.
  pose proof (dice_probs_lookup _ _ Hdp Hr) as Hp.
  destruct (landing_chance _ _ _ _ m Hs Hi Hp Hd) as (m' & E & _ & G).
  destruct (nearest_is_nearest_after _ Hd) as [Hst Hut].
  exists (nearest STATIONS d), (nearest UTILITIES d), m'.
  split; [assumption|]. split; [assumption|]. split; [assumption|].
  match goal with |- row_gains i ?adds m m' /\ _ =>
    assert (Hg : row_gains i adds m m')
  end.
  { intros a b. rewrite G. unfold Qsum_map, Qsum; cbn [map fold_right fst snd].
    subst p; try subst d; ring. }
  split; [assumption|]. split.
  - exact (row_gains_only_columns _ _ _ _ Hg).
  - field.
Qed.

Lemma chance_split_witness :
  let d := (0 + 7) mod BOARD_SIZE in
  let p := nth 7 dice_table 0%Q in
  exists station utility m',
    nearest_after STATIONS d station /\
    nearest_after UTILITIES d utility /\
    landing_update dice_table 0 7 (zeros BOARD_SIZE BOARD_SIZE) = Some m' /\
    row_gains 0
      [(d, (p * 6 / 16)%Q); (0, (p * 1 / 16)%Q); (24, (p * 1 / 16)%Q); (39, (p * 1 / 16)%Q);
       (11, (p * 1 / 16)%Q); (5, (p * 1 / 16)%Q); (JAIL_SQUARE, (p * 1 / 16)%Q);
       ((d - 3) mod BOARD_SIZE, (p * 1 / 16)%Q);
       (station, (p * 1 / 8)%Q); (utility, (p * 1 / 16)%Q)]
      (zeros BOARD_SIZE BOARD_SIZE) m' /\
    only_columns 0
      [d; 0; 24; 39; 11; 5; JAIL_SQUARE; (d - 3) mod BOARD_SIZE;
       station; utility] (zeros BOARD_SIZE BOARD_SIZE) m' /\
    p * 6 / 16 + p * 1 / 16 + p * 1 / 16 + p * 1 / 16 + p * 1 / 16
      + p * 1 / 16 + p * 1 / 16 + p * 1 / 16 + p * 1 / 8 + p * 1 / 16 == p.
Proof.
  apply (chance_split dice_table 0 7 (zeros BOARD_SIZE BOARD_SIZE)).
  - exact dice_table_computed.
  - exact shape_zeros.
  - unfold BOARD_SIZE; lia.
  - unfold MIN_ROLL, MAX_ROLL; lia.
  - reflexivity.
Defined.

(** C2. For an origin square other than 30 the constant [(1/12)^3] is added
    to [matrix[i][10]] in every iteration of the roll loop, that is once for
    each of the 11 roll values 2..12, and for origin 30 it is never added:
    one iteration places exactly that amount, the loop runs the statement
    once per roll value, and the finished entry is the eleven-fold constant
    on top of what the landing branches place. *)
Theorem three_doubles_accumulation dice_probs M i m :
  calculate_dice_probabilities = Some dice_probs ->
  generate_transition_matrix = Some M ->
  shape m -> i < BOARD_SIZE ->
  (exists m', three_doubles_update i m = Some m' /\
     row_gains i
       (if i =? GO_TO_JAIL_SQUARE then []
        else [(JAIL_SQUARE, ((1 / 12) ^ 3)%Q)]) m m') /\
  row_loop dice_probs i m =
    for_each [2; 3; 4; 5; 6; 7; 8; 9; 10; 11; 12]
      (fun roll m =>
         m <- three_doubles_update i m ;; landing_update dice_probs i roll m)
      m /\
  length (range MIN_ROLL (MAX_ROLL + 1)) = 11 /\
  forall b,
    get M i b ==
    (if negb (i =? GO_TO_JAIL_SQUARE) && (b =? JAIL_SQUARE)
     then 11 * (1 / 12) ^ 3 else 0)
    + Qsum_map (fun roll => landing_mass dice_probs i roll b)
        (range MIN_ROLL (MAX_ROLL + 1)).
Proof.
  intros Hdp HM Hs Hi. split; [|split; [reflexivity | split; [reflexivity|]]].
  - destruct (three_doubles_spec i m Hs Hi) as (m' & E & _ & G).
    exists m'. split; [assumption|]. intros a b. rewrite G.
    unfold Qsum_map, Qsum. destruct (i =? GO_TO_JAIL_SQUARE);
      cbn [map fold_right fst snd]; unfold three_doubles; ring.
  - intros b.
    destruct (generate_spec dice_probs Hdp) as (M' & E & _ & G).
    rewrite HM in E. injection E as <-.
    rewrite (G i b Hi). unfold row_mass. rewrite Qsum_map_shift.
    change (inject_Z (Z.of_nat (length (range MIN_ROLL (MAX_ROLL + 1)))))
      with 11%Q.
    unfold three_doubles_mass, three_doubles.
    destruct (i =? GO_TO_JAIL_SQUARE), (b =? JAIL_SQUARE);
      cbn [negb andb orb]; ring.
Qed.

Lemma three_doubles_accumulation_witness :
  (exists m',
     three_doubles_update 0 (zeros BOARD_SIZE BOARD_SIZE) = Some m' /\
     row_gains 0
       (if 0 =? GO_TO_JAIL_SQUARE then []
        else [(JAIL_SQUARE, ((1 / 12) ^ 3)%Q)])
       (zeros BOARD_SIZE BOARD_SIZE) m') /\
  row_loop dice_table 0 (zeros BOARD_SIZE BOARD_SIZE) =
    for_each [2; 3; 4; 5; 6; 7; 8; 9; 10; 11; 12]
      (fun roll m =>
         m <- three_doubles_update 0 m ;; landing_update dice_table 0 roll m)
      (zeros BOARD_SIZE BOARD_SIZE) /\
  length (range MIN_ROLL (MAX_ROLL + 1)) = 11 /\
  forall b,
    get transition_matrix_value 0 b ==
    (if negb (0 =? GO_TO_JAIL_SQUARE) && (b =? JAIL_SQUARE)
     then 11 * (1 / 12) ^ 3 else 0)
    + Qsum_map (fun roll => landing_mass dice_table 0 roll b)
        (range MIN_ROLL (MAX_ROLL + 1)).
Proof.
  apply (three_doubles_accumulation dice_table transition_matrix_value 0
           (zeros BOARD_SIZE BOARD_SIZE)).
  - exact dice_table_computed.
  - exact generate_value.
  - exact shape_zeros.
  - unfold BOARD_SIZE; lia.
Defined.

(** C10. In exact rational arithmetic every row [i <> 30] of the constructed
    matrix sums to [1 + 11 * (1/12)^3 = 1739/1728] and row 30 sums to 1: the
    dice distribution has total mass 1, every roll places exactly its own
    probability in the row, and the three-doubles constant comes on top
    eleven times except in row 30. *)
Theorem row_sums_exact dice_probs M i r :
  calculate_dice_probabilities = Some dice_probs ->
  generate_transition_matrix = Some M ->
  i < BOARD_SIZE -> MIN_ROLL <= r <= MAX_ROLL ->
  Qsum (nth i M []) ==
    (if i =? GO_TO_JAIL_SQUARE then 1 else 1 + 11 * (1 / 12) ^ 3) /\
  1 + 11 * (1 / 12) ^ 3 == 1739 # 1728 /\
  Qsum_map (fun roll => nth roll dice_probs 0%Q)
    (range MIN_ROLL (MAX_ROLL + 1)) == 1 /\
  Qsum_map (landing_mass dice_probs i r) (range 0 BOARD_SIZE) ==
    nth r dice_probs 0%Q /\
  Qsum_map (fun b => (11 * three_doubles_mass i b)%Q) (range 0 BOARD_SIZE) ==
    (if i =? GO_TO_JAIL_SQUARE then 0 else 11 * (1 / 12) ^ 3).
Proof.
  intros Hdp HM Hi Hr.
  destruct (generated_is_value _ _ Hdp HM) as [-> ->].
  split; [|split; [reflexivity | split; [reflexivity | split]]].
  - apply Qeq_bool_iff. revert i Hi.
    apply (forallb_below BOARD_SIZE
      (fun i => Qeq_bool (Qsum (nth i transition_matrix_value []))
                  (if i =? GO_TO_JAIL_SQUARE then 1
                   else 1 + 11 * (1 / 12) ^ 3))).
    vm_compute. reflexivity.
  - apply Qeq_bool_iff.
    assert (Hr' : r - MIN_ROLL < 11) by (unfold MIN_ROLL, MAX_ROLL in *; lia).
    replace r with (MIN_ROLL + (r - MIN_ROLL)) by lia.
    generalize (r - MIN_ROLL) Hr'. clear r Hr Hr'. intros k Hk.
    revert i Hi.
    apply (forallb_below BOARD_SIZE
      (fun i => Qeq_bool
                  (Qsum_map (landing_mass dice_table i (MIN_ROLL + k))
                     (range 0 BOARD_SIZE))
                  (nth (MIN_ROLL + k) dice_table 0%Q))).
    revert k Hk.
    apply (forallb_below 11
      (fun k => forallb
        (fun i => Qeq_bool
                    (Qsum_map (landing_mass dice_table i (MIN_ROLL + k))
                       (range 0 BOARD_SIZE))
                    (nth (MIN_ROLL + k) dice_table 0%Q))
        (seq 0 BOARD_SIZE))).
    vm_compute. reflexivity.
  - apply Qeq_bool_iff. revert i Hi.
    apply (forallb_below BOARD_SIZE
      (fun i => Qeq_bool
                  (Qsum_map (fun b => (11 * three_doubles_mass i b)%Q)
                     (range 0 BOARD_SIZE))
                  (if i =? GO_TO_JAIL_SQUARE then 0
                   else 11 * (1 / 12) ^ 3))).
    vm_compute. reflexivity.
Qed.

Lemma row_sums_exact_witness :
  Qsum (nth 0 transition_matrix_value []) ==
    (if 0 =? GO_TO_JAIL_SQUARE then 1 else 1 + 11 * (1 / 12) ^ 3) /\
  1 + 11 * (1 / 12) ^ 3 == 1739 # 1728 /\
  Qsum_map (fun roll => nth roll dice_table 0%Q)
    (range MIN_ROLL (MAX_ROLL + 1)) == 1 /\
  Qsum_map (landing_mass dice_table 0 7) (range 0 BOARD_SIZE) ==
    nth 7 dice_table 0%Q /\
  Qsum_map (fun b => (11 * three_doubles_mass 0 b)%Q) (range 0 BOARD_SIZE) ==
    (if 0 =? GO_TO_JAIL_SQUARE then 0 else 11 * (1 / 12) ^ 3).
Proof.
  apply (row_sums_exact dice_table transition_matrix_value 0 7).
  - exact dice_table_computed.
  - exact generate_value.
  - unfold BOARD_SIZE; lia.
  - unfold MIN_ROLL, MAX_ROLL; lia.
Defined.

(** C1. The claim is that every row of the constructed matrix sums to 1
    within 1e-9.  Evaluated at origin square 0, the construction succeeds
    and row 0 sums to 1739/1728, which is further than 1e-9 from 1. *)
Theorem row_zero_sum_not_one :
  exists M, generate_transition_matrix = Some M /\
    Qsum (nth 0 M []) == 1739 # 1728 /\
    ~ (Qabs (Qsum (nth 0 M []) - 1) <= 1 # 1000000000)%Q.
Proof.
  exists transition_matrix_value. split; [exact generate_value|].
  split; [vm_compute; reflexivity|].
  apply Qlt_not_le. vm_compute. reflexivity.
Qed.

(** * Properties of the sampler *)

(** ** Dictionaries of counts *)

Lemma dict_get_increment d k k' :
  dict_get (increment d k) k' =
  if (k =? k')%string then Some (count d k + 1) else dict_get d k'.
Proof.
  unfold count. induction d as [|[k0 v] d IH]; simpl.
  - destruct (String.eqb_spec k k'); reflexivity.
  - destruct (String.eqb_spec k0 k) as [->|Hne]; simpl.
    + destruct (String.eqb_spec k k'); reflexivity.
    + rewrite IH. destruct (String.eqb_spec k0 k') as [->|Hne'].
      * destruct (String.eqb_spec k k'); [congruence | reflexivity].
      * reflexivity.
Qed.

Lemma dict_total_increment d k : dict_total (increment d k) = dict_total d + 1.
Proof.
  induction d as [|[k0 v] d IH]; simpl; [reflexivity|].
  destruct (k0 =? k)%string; simpl; lia.
Qed.

Lemma increment_keys d k :
  forall k', In k' (map fst (increment d k)) -> k' = k \/ In k' (map fst d).
Proof.
  induction d as [|[k0 v] d IH]; simpl; intros k' H.
  - destruct H as [H|[]]. left. congruence.
  - destruct (String.eqb_spec k0 k) as [->|Hne]; simpl in H.
    + right. assumption.
    + destruct H as [H|H]; [right; left; assumption|].
      destruct (IH _ H); [left | right; right]; assumption.
Qed.

Lemma increment_NoDup d k :
  NoDup (map fst d) -> NoDup (map fst (increment d k)).
Proof.
  induction d as [|[k0 v] d IH]; simpl; intros H.
  - constructor; [intros [] | constructor].
  - inversion H as [|? ? Hnotin Hnd]; subst.
    destruct (String.eqb_spec k0 k) as [->|Hne]; simpl.
    + constructor; assumption.
    + constructor; [|apply IH; assumption].
      intros Hin. destruct (increment_keys _ _ _ Hin); [congruence | contradiction].
Qed.

Lemma sum_single (k : string) (v : nat) (f : string -> nat) (L : list string) :
  NoDup L -> In k L -> f k = 0 ->
  list_sum (map (fun n => if (k =? n)%string then v else f n) L) =
  v + list_sum (map f L).
Proof.
  intros Hnd Hin Hk. induction L as [|n L IH]; [contradiction|].
  inversion Hnd as [|? ? Hnotin Hnd']; subst. simpl.
  destruct (String.eqb_spec k n) as [->|Hne].
  - rewrite Hk. simpl. do 2 f_equal. apply map_ext_in. intros m Hm.
    destruct (String.eqb_spec n m) as [->|]; [contradiction | reflexivity].
  - destruct Hin as [Hin|Hin]; [congruence|].
    rewrite (IH Hnd' Hin). lia.
Qed.

Lemma count_absent d k : ~ In k (map fst d) -> count d k = 0.
Proof.
  unfold count. induction d as [|[k0 v] d IH]; simpl; intros H; [reflexivity|].
  destruct (String.eqb_spec k0 k) as [->|Hne]; [tauto|].
  apply IH. tauto.
Qed.

(** Summing the counts square by square gives the total of the mapping. *)
Lemma count_sum d (L : list string) :
  NoDup L -> NoDup (map fst d) -> incl (map fst d) L ->
  list_sum (map (count d) L) = dict_total d.
Proof.
  intros HL. induction d as [|[k v] d IH]; simpl; intros Hnd Hincl.
  - clear. induction L as [|n L IHL]; [reflexivity | exact IHL].
  - inversion Hnd as [|? ? Hnotin Hnd']; subst.
    rewrite <- IH; [|assumption | intros x Hx; apply Hincl; right; assumption].
    rewrite <- (sum_single k v (count d) L HL).
    + f_equal. apply map_ext. intros n. unfold count. simpl.
      destruct (k =? n)%string; reflexivity.
    + apply Hincl. left. reflexivity.
    + apply count_absent. assumption.
Qed.

Lemma board_spaces_NoDup : NoDup BOARD_SPACES.
Proof.
  assert (H : nodup string_dec BOARD_SPACES = BOARD_SPACES)
    by (vm_compute; reflexivity).
  rewrite <- H. apply NoDup_nodup.
Qed.

Lemma dict_le_refl d : dict_le d d.
Proof. intros k v H. exists v. split; [assumption | lia]. Qed.

Lemma dict_le_trans d1 d2 d3 : dict_le d1 d2 -> dict_le d2 d3 -> dict_le d1 d3.
Proof.
  intros H12 H23 k v H1. destruct (H12 k v H1) as (v2 & H2 & Hle).
  destruct (H23 k v2 H2) as (v3 & H3 & Hle'). exists v3. split; [assumption | lia].
Qed.

Lemma dict_le_increment d k : dict_le d (increment d k).
Proof.
  intros k' v H. rewrite dict_get_increment.
  destruct (String.eqb_spec k k') as [->|Hne].
  - exists (count d k' + 1). split; [reflexivity|].
    unfold count. rewrite H. simpl. lia.
  - exists v. split; [assumption | lia].
Qed.

Lemma non_decreasing_snoc h d :
  non_decreasing_history h -> Forall (fun x => dict_le x d) h ->
  non_decreasing_history (h ++ [d]).
Proof.
  intros Hh Hall j1 j2 d1 d2 Hlt H1 H2.
  assert (Hj2 : j2 < length (h ++ [d])).
  { apply nth_error_Some. congruence. }
  rewrite length_app in Hj2. simpl in Hj2.
  rewrite nth_error_app1 in H1 by lia.
  destruct (Nat.lt_ge_cases j2 (length h)) as [Hin|Hout].
  - rewrite nth_error_app1 in H2 by assumption.
    exact (Hh j1 j2 d1 d2 Hlt H1 H2).
  - rewrite nth_error_app2 in H2 by assumption.
    replace (j2 - length h) with 0 in H2 by lia. injection H2 as <-.
    rewrite Forall_forall in Hall. apply Hall. eapply nth_error_In; eassumption.
Qed.

(** ** Weighted choice *)

Local Open Scope Q_scope.

Lemma Qsum_scale (t : Q) (l : list Q) :
  Qsum (map (fun x => (x / t)%Q) l) == Qsum l / t.
Proof.
  induction l as [|x l IH]; simpl.
  - unfold Qdiv. ring.
  - rewrite IH. unfold Qdiv. ring.
Qed.

Lemma last_cumsum p : forall acc,
  p <> [] -> last (cumsum_from acc p) 0%Q == acc + Qsum p.
Proof.
  induction p as [|x r IH]; intros acc Hne; [congruence|].
  destruct r as [|y r'].
  - simpl. ring.
  - change (last (cumsum_from acc (x :: y :: r')) 0%Q)
      with (last (cumsum_from (acc + x) (y :: r')) 0%Q).
    rewrite IH by discriminate. simpl. ring.
Qed.

Lemma search_in_range p : forall acc T u,
  p <> [] -> 0 < T -> T == acc + Qsum p -> u < 1 ->
  (searchsorted_right (map (fun c => (c / T)%Q) (cumsum_from acc p)) u
   < length p)%nat.
Proof.
  induction p as [|x r IH]; intros acc T u Hne HT Hsum Hu; [congruence|].
  simpl. destruct (Qle_bool ((acc + x) / T) u) eqn:E; [|lia].
  apply Qle_bool_iff in E.
  destruct r as [|y r'].
  - exfalso. simpl in Hsum.
    assert (H1 : (acc + x) / T == 1).
    { assert (Hx : acc + x == T) by (rewrite Hsum; ring).
      rewrite Hx. field. intros Hz. rewrite Hz in HT.
      exact (Qlt_irrefl 0 HT). }
    rewrite H1 in E. lra.
  - apply -> Nat.succ_lt_mono. apply IH; try assumption; [discriminate|].
    rewrite Hsum. simpl. ring.
Qed.

Lemma search_support p : forall acc T u,
  0 < T -> acc / T <= u ->
  (searchsorted_right (map (fun c => (c / T)%Q) (cumsum_from acc p)) u
   < length p)%nat ->
  0 < nth (searchsorted_right
            (map (fun c => (c / T)%Q) (cumsum_from acc p)) u) p 0.
Proof.
  induction p as [|x r IH]; intros acc T u HT Hacc Hk; [simpl in Hk; lia|].
  simpl in *. destruct (Qle_bool ((acc + x) / T) u) eqn:E.
  - apply Qle_bool_iff in E. apply IH; try assumption. lia.
  - assert (Hlt : u < (acc + x) / T).
    { apply Qnot_le_lt. intros Hle. apply Qle_bool_iff in Hle. congruence. }
    assert (Hlt' : acc / T < (acc + x) / T) by lra.
    unfold Qdiv in Hlt'. apply Qmult_lt_r in Hlt'.
    + lra.
    + apply Qinv_lt_0_compat. assumption.
Qed.

Lemma no_negative_entry (l : list Q) :
  (forall x, In x l -> 0 <= x) ->
  existsb (fun x => negb (Qle_bool 0 x)) l = false.
Proof.
  intros H. induction l as [|x l IH]; [reflexivity|]. simpl.
  assert (Hx : Qle_bool 0 x = true) by (apply Qle_bool_iff, H; left; reflexivity).
  rewrite Hx. simpl. apply IH. intros y Hy. apply H. right. assumption.
Qed.

(** A row of non-negative entries with a positive sum passes the validation
    of [choice] once it is divided by its sum. *)
Lemma normalized_row_valid {A : Type} (a : list A) (row : list Q) :
  a <> [] -> length row = length a ->
  (forall x, In x row -> 0 <= x) -> 0 < Qsum row ->
  valid_probabilities a (map (fun x => x / Qsum row) row) = true.
Proof.
  intros Ha Hlen Hnn Hpos. unfold valid_probabilities.
  rewrite !andb_true_iff. repeat split.
  - destruct a; [congruence | reflexivity].
  - apply Nat.eqb_eq. rewrite length_map. assumption.
  - rewrite no_negative_entry; [reflexivity|].
    intros y Hy. apply in_map_iff in Hy. destruct Hy as (x & <- & Hx).
    apply Qle_shift_div_l; [assumption|]. specialize (Hnn x Hx). lra.
  - apply Qle_bool_iff. rewrite Qsum_scale.
    assert (H1 : Qsum row / Qsum row - 1 == 0).
    { field. intros Hz. rewrite Hz in Hpos. exact (Qlt_irrefl 0 Hpos). }
    rewrite H1. discriminate.
Qed.

Section Choice.

Variable rng : Type.
Variable random_sample : rng -> Q * rng.

(** A valid [p] and a sample in [0, 1) yield an index of [a] whose
    probability is positive, and consume exactly one sample. *)
Lemma choice_spec {A : Type} (a : list A) (p : list Q) (g : rng) :
  valid_probabilities a p = true ->
  0 <= fst (random_sample g) < 1 ->
  exists idx v,
    choice random_sample a p g = Some (v, snd (random_sample g)) /\
    nth_error a idx = Some v /\ (idx < length p)%nat /\ 0 < nth idx p 0.
Proof.
  intros Hv [Hu0 Hu1]. unfold choice. rewrite Hv.
  unfold valid_probabilities in Hv. rewrite !andb_true_iff in Hv.
  destruct Hv as [[[Hne Hlen] _] Hsum].
  apply Nat.eqb_eq in Hlen. apply Qle_bool_iff in Hsum.
  apply Qabs_Qle_condition in Hsum. unfold atol in Hsum.
  assert (Hp : p <> []).
  { intros ->. simpl in Hlen. rewrite <- Hlen in Hne. discriminate. }
  pose proof (last_cumsum p 0 Hp) as HT. fold (cumsum p) in HT.
  set (T := last (cumsum p) 0) in *.
  assert (HTpos : 0 < T) by lra.
  destruct (random_sample g) as [u g'] eqn:Eg. simpl in Hu0, Hu1 |- *.
  set (idx := searchsorted_right (map (fun c => c / T) (cumsum p)) u).
  assert (Hidx : (idx < length p)%nat).
  { apply search_in_range; try assumption. }
  assert (Hpos : 0 < nth idx p 0).
  { apply search_support; try assumption.
    unfold Qdiv. rewrite Qmult_0_l. assumption. }
  destruct (nth_error_in_range a idx) as [v Ev]; [lia|].
  exists idx, v. rewrite Ev. simpl. repeat split; assumption.
Qed.

End Choice.

Local Open Scope nat_scope.

(** ** Facts about the constructed matrix that the sampler relies on *)

Lemma matrix_shape : shape transition_matrix_value.
Proof.
  destruct (generate_spec dice_table dice_table_computed) as (M & E & Hs & _).
  unfold transition_matrix_value. rewrite E. exact Hs.
Qed.

Lemma row_sum_value i :
  i < BOARD_SIZE ->
  Qsum (nth i transition_matrix_value []) ==
  (if i =? GO_TO_JAIL_SQUARE then 1 else 1 + 11 * (1 / 12) ^ 3).
Proof.
  intros Hi. apply Qeq_bool_iff. revert i Hi.
  apply (forallb_below BOARD_SIZE
    (fun i => Qeq_bool (Qsum (nth i transition_matrix_value []))
                (if i =? GO_TO_JAIL_SQUARE then 1
                 else 1 + 11 * (1 / 12) ^ 3))).
  vm_compute. reflexivity.
Qed.

Lemma row_sum_positive i :
  i < BOARD_SIZE -> (0 < Qsum (nth i transition_matrix_value []))%Q.
Proof.
  intros Hi. rewrite (row_sum_value i Hi).
  destruct (i =? GO_TO_JAIL_SQUARE); reflexivity.
Qed.

Lemma entries_non_negative i x :
  In x (nth i transition_matrix_value []) -> (0 <= x)%Q.
Proof.
  assert (H : forallb (forallb (Qle_bool 0)) transition_matrix_value = true)
    by (vm_compute; reflexivity).
  rewrite forallb_forall in H. intros Hx.
  destruct (Nat.lt_ge_cases i (length transition_matrix_value)) as [Hlt|Hge].
  - specialize (H _ (nth_In _ [] Hlt)). rewrite forallb_forall in H.
    apply Qle_bool_iff, H, Hx.
  - rewrite nth_overflow in Hx by assumption. contradiction.
Qed.

Lemma go_to_jail_column_zero i :
  i < BOARD_SIZE -> get transition_matrix_value i GO_TO_JAIL_SQUARE == 0.
Proof.
  intros Hi. apply Qeq_bool_iff. revert i Hi.
  apply (forallb_below BOARD_SIZE
    (fun i => Qeq_bool (get transition_matrix_value i GO_TO_JAIL_SQUARE) 0)).
  vm_compute. reflexivity.
Qed.

Lemma go_to_jail_name k :
  nth_error BOARD_SPACES k = Some "Go To Jail"%string ->
  k = GO_TO_JAIL_SQUARE.
Proof.
  intros H.
  assert (Hk : k < 40).
  { assert (Hs : nth_error BOARD_SPACES k <> None) by congruence.
    apply nth_error_Some in Hs. exact Hs. }
  do 40 (destruct k as [|k]; [try discriminate H; try reflexivity|]).
  lia.
Qed.

(** ** One step of the chain *)

Section Step.

Variable rng : Type.
Variable random_sample : rng -> Q * rng.
Hypothesis sample_range : forall g, (0 <= fst (random_sample g) < 1)%Q.

Lemma move_spec g self :
  ready self ->
  exists next space,
    move random_sample (g, self) =
      Some (snd (random_sample g), landed self next space) /\
    next < BOARD_SIZE /\
    nth_error BOARD_SPACES next = Some space /\
    (0 < get transition_matrix_value (current_position self) next)%Q.
Proof.
  intros (Hb & Hm & Hc). unfold move. rewrite Hm, Hb.
  pose proof matrix_shape as [Hlen HF].
  destruct (nth_error_in_range transition_matrix_value (current_position self))
    as [row Er]; [lia|].
  rewrite Er. cbn [bind].
  pose proof (nth_error_nth _ _ [] Er) as Hrow.
  pose proof (row_sum_positive _ Hc) as Hpos. rewrite Hrow in Hpos.
  assert (Hz : Qeq_bool (Qsum row) 0 = false).
  { destruct (Qeq_bool (Qsum row) 0) eqn:E; [|reflexivity].
    apply Qeq_bool_iff in E. rewrite E in Hpos. discriminate. }
  rewrite Hz.
  assert (Hrl : length row = BOARD_SIZE)
    by (eapply shape_row; [exact matrix_shape | exact Er]).
  assert (Hv : valid_probabilities (range 0 BOARD_SIZE)
                 (map (fun x => (x / Qsum row)%Q) row) = true).
  { apply normalized_row_valid; try assumption.
    - discriminate.
    - intros x Hx. apply (entries_non_negative (current_position self)).
      rewrite Hrow. assumption. }
  destruct (choice_spec rng random_sample _ _ g Hv (sample_range g))
    as (idx & next & Ec & Ea & Hidx & Hp).
  rewrite Ec. cbn [bind]. rewrite length_map, Hrl in Hidx.
  assert (Hnext : next = idx).
  { unfold range in Ea. try rewrite nth_error_seq in Ea.
    destruct (idx <? BOARD_SIZE - 0); [|discriminate].
    injection Ea as Ea. simpl in Ea. congruence. }
  subst next.
  destruct (nth_error_in_range BOARD_SPACES idx) as [space Es];
    [exact Hidx|].
  rewrite Es. cbn [bind]. exists idx, space.
  split; [unfold landed; rewrite Hb, Hm; reflexivity|].
  split; [assumption|]. split; [assumption|].
  unfold get. rewrite Hrow.
  rewrite (nth_indep _ 0%Q (0 / Qsum row)%Q) in Hp
    by (rewrite length_map; lia).
  rewrite (map_nth (fun x => (x / Qsum row)%Q)) in Hp.
  assert (Hx : nth idx row 0%Q == nth idx row 0%Q / Qsum row * Qsum row).
  { field. intros Hzero. rewrite Hzero in Hpos. exact (Qlt_irrefl 0 Hpos). }
  rewrite Hx. apply Qmult_lt_0_compat; assumption.
Qed.

End Step.

(** ** Invariant of a run *)

Lemma init_value : init = Some initial_state.
Proof. unfold init. rewrite generate_value. reflexivity. Qed.

Lemma init_unique s0 : init = Some s0 -> s0 = initial_state.
Proof.
  intros H. rewrite init_value in H.
  exact (eq_sym (f_equal (option_get initial_state) H)).
Qed.

Lemma sampled_initial : sampled 0 initial_state.
Proof.
  unfold sampled, ready. simpl.
  repeat split; try reflexivity; try constructor.
  - unfold BOARD_SIZE. lia.
  - intros j1 j2 d1 d2 _ H. destruct j1; discriminate H.
  - discriminate.
  - contradiction.
Qed.

Lemma snapshot_count k :
  (S k) / 100 = if (k + 1) mod 100 =? 0 then k / 100 + 1 else k / 100.
Proof.
  replace (S k) with (k + 1) by lia.
  pose proof (Nat.div_mod_eq k 100) as Hk.
  pose proof (Nat.div_mod_eq (k + 1) 100) as Hk1.
  pose proof (Nat.mod_upper_bound k 100 ltac:(discriminate)) as Hb.
  pose proof (Nat.mod_upper_bound (k + 1) 100 ltac:(discriminate)) as Hb1.
  destruct (Nat.eqb_spec ((k + 1) mod 100) 0) as [E|E]; nia.
Qed.

Lemma for_each_constant_body {S : Type} (f : S -> option S) n :
  forall a b w,
    for_each (seq a n) (fun _ => f) w = for_each (seq b n) (fun _ => f) w.
Proof.
  induction n as [|n IH]; intros a b w; simpl; [reflexivity|].
  destruct (f w); simpl; [apply IH | reflexivity].
Qed.

Section Runs.

Variable rng : Type.
Variable random_sample : rng -> Q * rng.

Lemma run_moves_S n w :
  run_moves random_sample (S n) w =
  (w' <- move random_sample w ;; run_moves random_sample n w').
Proof.
  unfold run_moves, range. rewrite !Nat.sub_0_r. simpl.
  destruct (move random_sample w); simpl; [|reflexivity].
  apply for_each_constant_body.
Qed.

(** [move] reads the generator only through the sample it draws. *)
Lemma move_same_draw g1 g2 self :
  fst (random_sample g1) = fst (random_sample g2) ->
  (move random_sample (g1, self) = None /\
   move random_sample (g2, self) = None) \/
  exists self',
    move random_sample (g1, self) = Some (snd (random_sample g1), self') /\
    move random_sample (g2, self) = Some (snd (random_sample g2), self').
Proof.
  intros Hu. unfold move, choice.
  destruct (nth_error (transition_matrix self) (current_position self))
    as [row|]; cbn [bind]; [|left; split; reflexivity].
  destruct (Qeq_bool (Qsum row) 0); [left; split; reflexivity|].
  destruct (valid_probabilities _ _); cbn [bind]; [|left; split; reflexivity].
  destruct (random_sample g1) as [u1 g1'], (random_sample g2) as [u2 g2'].
  simpl in Hu. subst u2.
  destruct (nth_error (range 0 BOARD_SIZE) _) as [next|]; cbn [bind];
    [|left; split; reflexivity].
  destruct (nth_error (board_spaces self) next) as [space|]; cbn [bind];
    [|left; split; reflexivity].
  right. eexists. split; reflexivity.
Qed.

Lemma same_draws_same_moves n : forall g1 g2 self,
  draws random_sample n g1 = draws random_sample n g2 ->
  option_map snd (run_moves random_sample n (g1, self)) =
    option_map snd (run_moves random_sample n (g2, self)) /\
  visited random_sample n (g1, self) = visited random_sample n (g2, self).
Proof.
  induction n as [|n IH]; intros g1 g2 self Hd.
  - split; reflexivity.
  - rewrite !run_moves_S. cbn [visited].
    assert (Hu : fst (random_sample g1) = fst (random_sample g2) /\
                 draws random_sample n (snd (random_sample g1)) =
                 draws random_sample n (snd (random_sample g2))).
    { simpl in Hd.
      destruct (random_sample g1) as [u1 g1'], (random_sample g2) as [u2 g2'].
      simpl. injection Hd as Hu Hd. split; assumption. }
    destruct Hu as [Hu Hd'].
    destruct (move_same_draw g1 g2 self Hu) as [[E1 E2] | (self' & E1 & E2)];
      rewrite E1, E2; cbn [bind].
    + split; reflexivity.
    + destruct (IH _ _ self' Hd') as [Hr Hv]. cbn [snd].
      rewrite Hv. split; [assumption | reflexivity].
Qed.

Lemma move_frame w w' :
  move random_sample w = Some w' ->
  transition_matrix (snd w') = transition_matrix (snd w) /\
  board_spaces (snd w') = board_spaces (snd w).
Proof.
  destruct w as [g self]. unfold move.
  destruct (nth_error (transition_matrix self) (current_position self))
    as [row|]; cbn [bind]; [|discriminate].
  destruct (Qeq_bool (Qsum row) 0); [discriminate|].
  destruct (choice random_sample _ _ g) as [[next g']|]; cbn [bind];
    [|discriminate].
  destruct (nth_error (board_spaces self) next) as [space|]; cbn [bind];
    [|discriminate].
  intros H. apply (f_equal (option_get w')) in H. cbn [option_get] in H.
  subst w'. split; reflexivity.
Qed.

Lemma run_frame n : forall w w',
  run_moves random_sample n w = Some w' ->
  transition_matrix (snd w') = transition_matrix (snd w) /\
  board_spaces (snd w') = board_spaces (snd w).
Proof.
  induction n as [|n IH]; intros w w' H.
  - apply (f_equal (option_get w')) in H. cbn in H. subst w'.
    split; reflexivity.
  - rewrite run_moves_S in H.
    destruct (move random_sample w) as [w1|] eqn:E; cbn [bind] in H;
      [|discriminate].
    destruct (move_frame _ _ E) as [Hm Hb].
    destruct (IH _ _ H) as [Hm' Hb'].
    split; congruence.
Qed.

Hypothesis sample_range : forall g, (0 <= fst (random_sample g) < 1)%Q.

Lemma move_sampled g k self :
  sampled k self ->
  exists self',
    move random_sample (g, self) = Some (snd (random_sample g), self') /\
    sampled (S k) self'.
Proof.
  intros (Hready & Hcount & Htotal & Hlen & Hnd & Hle & Hpos & Hjail & Hhist
          & Hkeys & Hnames).
  destruct (move_spec rng random_sample sample_range g self Hready)
    as (next & space & E & Hnext & Hspace & Hprob).
  exists (landed self next space). split; [assumption|].
  destruct Hready as (Hb & Hm & Hc).
  assert (Hnot : next <> GO_TO_JAIL_SQUARE).
  { intros ->. rewrite (go_to_jail_column_zero _ Hc) in Hprob.
    exact (Qlt_irrefl 0 Hprob). }
  assert (Hname : space <> "Go To Jail"%string).
  { intros ->. apply Hnot. apply go_to_jail_name. assumption. }
  assert (Hjail' : count (increment (landings self) space) "Go To Jail" = 0).
  { unfold count at 1. rewrite dict_get_increment.
    apply String.eqb_neq in Hname. rewrite Hname. exact Hjail. }
  assert (Hnames' : incl (map fst (increment (landings self) space))
                      BOARD_SPACES).
  { intros x Hx. destruct (increment_keys _ _ _ Hx) as [->|Hold].
    - eapply nth_error_In. eassumption.
    - apply Hnames. assumption. }
  assert (Hkeys' : NoDup (map fst (increment (landings self) space)))
    by (apply increment_NoDup; assumption).
  assert (Hle' : Forall (fun d => dict_le d (increment (landings self) space))
                   (move_history self)).
  { eapply Forall_impl; [|exact Hle]. intros d Hd.
    eapply dict_le_trans; [exact Hd | apply dict_le_increment]. }
  unfold sampled, ready, landed. cbn [board_spaces current_position landings
    move_history transition_matrix moves_count].
  rewrite Hcount, (snapshot_count k).
  split; [repeat split; assumption|].
  split; [lia|].
  split; [rewrite dict_total_increment; lia|].
  destruct ((k + 1) mod 100 =? 0).
  - split; [rewrite length_app, Hlen; reflexivity|].
    split; [apply non_decreasing_snoc; assumption|].
    split; [apply Forall_app; split;
            [assumption | constructor; [apply dict_le_refl | constructor]]|].
    split; [assumption|]. split; [assumption|].
    split; [|split; assumption].
    apply Forall_app; split; [assumption | constructor; [assumption|constructor]].
  - repeat (split; [assumption|]). assumption.
Qed.

Lemma run_sampled n : forall g k self,
  sampled k self ->
  exists g' self' vs,
    run_moves random_sample n (g, self) = Some (g', self') /\
    sampled (k + n) self' /\
    visited random_sample n (g, self) = Some vs /\
    length vs = n /\
    Forall (fun v => v < BOARD_SIZE /\ v <> GO_TO_JAIL_SQUARE) vs.
Proof.
  induction n as [|n IH]; intros g k self Hs.
  - exists g, self, []. rewrite Nat.add_0_r.
    split; [reflexivity|]. split; [assumption|].
    split; [reflexivity|]. split; [reflexivity | constructor].
  - destruct (move_sampled g k self Hs) as (s1 & E & Hs1).
    destruct (IH (snd (random_sample g)) (S k) s1 Hs1)
      as (g' & s' & vs & Er & Hs' & Ev & Hl & Hall).
    exists g', s', (current_position s1 :: vs).
    rewrite run_moves_S. cbn [visited]. rewrite E. cbn [bind snd].
    rewrite Ev. cbn [bind]. replace (k + S n) with (S k + n) by lia.
    split; [assumption|]. split; [assumption|].
    split; [reflexivity|]. split; [simpl; lia|].
    constructor; [|assumption].
    destruct Hs1 as ((_ & _ & Hc) & _ & _ & _ & _ & _ & Hp & _).
    split; assumption.
Qed.

End Runs.

(** ** The concrete random source *)

Lemma lcg_sample_range g : (0 <= fst (lcg_sample g) < 1)%Q.
Proof.
  unfold lcg_sample. cbn [fst].
  pose proof (Z.mod_pos_bound (1103515245 * g + 12345) 2147483648
                ltac:(reflexivity)) as Hb.
  unfold Qle, Qlt. cbn [Qnum Qden]. lia.
Qed.

(** * Claims about the sampler *)

(** C3. After [N] calls of [move] from the freshly constructed object the
    counts of the landing mapping add up to exactly [N], the history has
    [N / 100] snapshots, and every snapshot contains every key of the
    snapshot before it with a count at least as large. *)
Theorem landing_totals_and_history (rng : Type)
    (random_sample : rng -> Q * rng) (N : nat) (g : rng)
    (s0 : MonopolySimulation) :
  (forall g, (0 <= fst (random_sample g) < 1)%Q) ->
  init = Some s0 ->
  exists g' self,
    run_moves random_sample N (g, s0) = Some (g', self) /\
    moves_count self = N /\
    dict_total (landings self) = N /\
    list_sum (map (count (landings self)) BOARD_SPACES) = N /\
    length (move_history self) = N / 100 /\
    non_decreasing_history (move_history self).
Proof.
  intros Hrange Hinit. apply init_unique in Hinit. subst s0.
  destruct (run_sampled rng random_sample Hrange N g 0 initial_state
              sampled_initial)
    as (g' & self & vs & E & Hs & _).
  destruct Hs as (_ & Hcount & Htotal & Hlen & Hnd & _ & _ & _ & _ & Hkeys
                  & Hnames).
  exists g', self. split; [assumption|]. split; [assumption|].
  split; [assumption|]. split; [|split; assumption].
  rewrite (count_sum _ _ board_spaces_NoDup Hkeys Hnames). assumption.
Qed.

Lemma landing_totals_and_history_witness :
  exists g' self,
    run_moves lcg_sample 250 (42%Z, initial_state) = Some (g', self) /\
    moves_count self = 250 /\
    dict_total (landings self) = 250 /\
    list_sum (map (count (landings self)) BOARD_SPACES) = 250 /\
    length (move_history self) = 250 / 100 /\
    non_decreasing_history (move_history self).
Proof.
  apply (landing_totals_and_history Z lcg_sample 250 42%Z initial_state).
  - exact lcg_sample_range.
  - exact init_value.
Defined.

(** C7. Two executions whose generators yield the same first [N] samples
    (in particular two executions from the same seed) visit the same
    squares and end with the same simulation object (position, landing
    counts, history and move counter) and the same exported table. *)
Theorem same_stream_same_results (rng : Type)
    (random_sample : rng -> Q * rng) (N : nat) (g1 g2 : rng)
    (self : MonopolySimulation) :
  draws random_sample N g1 = draws random_sample N g2 ->
  visited random_sample N (g1, self) = visited random_sample N (g2, self) /\
  option_map snd (run_moves random_sample N (g1, self)) =
    option_map snd (run_moves random_sample N (g2, self)) /\
  option_map snd (run_simulation random_sample N g1) =
    option_map snd (run_simulation random_sample N g2).
Proof.
  intros Hd.
  destruct (same_draws_same_moves rng random_sample N g1 g2 self Hd)
    as [Hr Hv].
  split; [assumption|]. split; [assumption|].
  unfold run_simulation. destruct init as [s0|]; cbn [bind]; [|reflexivity].
  destruct (same_draws_same_moves rng random_sample N g1 g2 s0 Hd)
    as [Hr0 _].
  destruct (run_moves random_sample N (g1, s0)) as [[g1' s1]|],
           (run_moves random_sample N (g2, s0)) as [[g2' s2]|];
    cbn [bind option_map snd] in *; congruence.
Qed.

Lemma same_stream_same_results_witness :
  visited lcg_sample 5 (1%Z, demo_state) =
    visited lcg_sample 5 (2147483649%Z, demo_state) /\
  option_map snd (run_moves lcg_sample 5 (1%Z, demo_state)) =
    option_map snd (run_moves lcg_sample 5 (2147483649%Z, demo_state)) /\
  option_map snd (run_simulation lcg_sample 5 1%Z) =
    option_map snd (run_simulation lcg_sample 5 2147483649%Z).
Proof.
  apply (same_stream_same_results Z lcg_sample 5 1%Z 2147483649%Z demo_state).
  vm_compute. reflexivity.
Defined.

(** C8. [move] never modifies the transition matrix: after any number of
    calls from any state the matrix of the object is the one it had
    before. *)
Theorem move_never_modifies_matrix (rng : Type)
    (random_sample : rng -> Q * rng) (N : nat) (g g' : rng)
    (self self' : MonopolySimulation) :
  run_moves random_sample N (g, self) = Some (g', self') ->
  transition_matrix self' = transition_matrix self.
Proof.
  intros H. exact (proj1 (run_frame rng random_sample N _ _ H)).
Qed.

Lemma move_never_modifies_matrix_witness :
  transition_matrix
    (snd (option_get (1%Z, demo_state)
            (run_moves lcg_sample 3 (1%Z, demo_state)))) =
  transition_matrix demo_state.
Proof.
  apply (move_never_modifies_matrix Z lcg_sample 3 1%Z
           (fst (option_get (1%Z, demo_state)
                   (run_moves lcg_sample 3 (1%Z, demo_state))))).
  vm_compute. reflexivity.
Defined.

(** C9. Column 30 (Go To Jail) of the constructed matrix is zero in every
    row; hence, from square 0, no call of [move] ever lands on square 30 and
    the count of "Go To Jail" stays 0 in the landing mapping and in every
    snapshot. *)
Theorem go_to_jail_never_visited (rng : Type)
    (random_sample : rng -> Q * rng) (N : nat) (g : rng)
    (s0 : MonopolySimulation) (M : matrix) (i : nat) :
  (forall g, (0 <= fst (random_sample g) < 1)%Q) ->
  init = Some s0 ->
  generate_transition_matrix = Some M ->
  i < BOARD_SIZE ->
  get M i GO_TO_JAIL_SQUARE == 0 /\
  exists g' self vs,
    run_moves random_sample N (g, s0) = Some (g', self) /\
    visited random_sample N (g, s0) = Some vs /\
    length vs = N /\
    ~ In GO_TO_JAIL_SQUARE vs /\
    current_position self <> GO_TO_JAIL_SQUARE /\
    count (landings self) "Go To Jail" = 0 /\
    Forall (fun d => count d "Go To Jail" = 0) (move_history self).
Proof.
  intros Hrange Hinit HM Hi. apply init_unique in Hinit. subst s0.
  destruct (generated_is_value _ _ dice_table_computed HM) as [_ ->].
  split; [apply go_to_jail_column_zero; assumption|].
  destruct (run_sampled rng random_sample Hrange N g 0 initial_state
              sampled_initial)
    as (g' & self & vs & E & Hs & Ev & Hl & Hall).
  destruct Hs as (_ & _ & _ & _ & _ & _ & Hpos & Hjail & Hhist & _ & _).
  exists g', self, vs. repeat (split; [assumption|]).
  split; [|repeat split; assumption].
  intros Hin. rewrite Forall_forall in Hall.
  destruct (Hall _ Hin) as [_ Hne]. apply Hne. reflexivity.
Qed.

Lemma go_to_jail_never_visited_witness :
  get transition_matrix_value 29 GO_TO_JAIL_SQUARE == 0 /\
  exists g' self vs,
    run_moves lcg_sample 250 (42%Z, initial_state) = Some (g', self) /\
    visited lcg_sample 250 (42%Z, initial_state) = Some vs /\
    length vs = 250 /\
    ~ In GO_TO_JAIL_SQUARE vs /\
    current_position self <> GO_TO_JAIL_SQUARE /\
    count (landings self) "Go To Jail" = 0 /\
    Forall (fun d => count d "Go To Jail" = 0) (move_history self).
Proof.
  apply (go_to_jail_never_visited Z lcg_sample 250 42%Z initial_state
           transition_matrix_value 29).
  - exact lcg_sample_range.
  - exact init_value.
  - exact generate_value.
  - unfold BOARD_SIZE; lia.
Defined.

(** * Further properties of the transition model *)

Local Open Scope Q_scope.

(** ** The dice distribution *)

(** X1. [calculate_dice_probabilities] returns 13 entries; entries 0 and 1
    are 0 and, for every sum [s] in 2..12, entry [s] is
    [(6 - |s - 7|) / 36]: positive and symmetric about 7. *)
Theorem dice_distribution_triangular (dice_probs : list Q) (s : nat) :
  calculate_dice_probabilities = Some dice_probs ->
  (MIN_ROLL <= s <= MAX_ROLL)%nat ->
  length dice_probs = (MAX_ROLL + 1)%nat /\
  nth 0 dice_probs 0 == 0 /\
  nth 1 dice_probs 0 == 0 /\
  nth s dice_probs 0 == inject_Z (6 - Z.abs (Z.of_nat s - 7)) / 36 /\
  nth s dice_probs 0 == nth (14 - s) dice_probs 0 /\
  0 < nth s dice_probs 0.
Proof.
  rewrite dice_probabilities_value. intros [= <-] [Hlo Hhi].
  unfold MIN_ROLL, MAX_ROLL in *.
  split; [reflexivity|]. split; [reflexivity|]. split; [reflexivity|].
  do 2 (destruct s as [|s]; [lia|]).
  do 11 (destruct s as [|s]; [repeat split; reflexivity|]).
  lia.
Qed.

Lemma dice_distribution_triangular_witness :
  length dice_table = (MAX_ROLL + 1)%nat /\
  nth 0 dice_table 0 == 0 /\
  nth 1 dice_table 0 == 0 /\
  nth 9 dice_table 0 == inject_Z (6 - Z.abs (Z.of_nat 9 - 7)) / 36 /\
  nth 9 dice_table 0 == nth (14 - 9) dice_table 0 /\
  0 < nth 9 dice_table 0.
Proof.
  apply (dice_distribution_triangular dice_table 9).
  - exact dice_table_computed.
  - unfold MIN_ROLL, MAX_ROLL; lia.
Defined.

(** ** Sums over a row *)

Lemma nth_seq_all {A : Type} (d : A) (l : list A) :
  map (fun b => nth b l d) (seq 0 (length l)) = l.
Proof.
  induction l as [|x l IH]; [reflexivity|].
  cbn [length seq map nth]. f_equal.
  rewrite <- seq_shift, map_map. exact IH.
Qed.

Lemma row_sum_by_columns (m : matrix) (i : nat) :
  shape m -> (i < BOARD_SIZE)%nat ->
  Qsum (nth i m []) == Qsum_map (get m i) (range 0 BOARD_SIZE).
Proof.
  intros Hs Hi. destruct (nth_error_in_range m i) as [row Er].
  { destruct Hs as [Hl _]. rewrite Hl. exact Hi. }
  pose proof (shape_row _ _ _ Hs Er) as Hlen.
  unfold Qsum_map, get, range. rewrite (nth_error_nth _ _ [] Er).
  rewrite Nat.sub_0_r, <- Hlen, nth_seq_all. reflexivity.
Qed.

Lemma get_beyond_columns (m : matrix) (a b : nat) :
  shape m -> (BOARD_SIZE <= b)%nat -> get m a b = 0.
Proof.
  intros [Hl HF] Hb. unfold get. apply nth_overflow.
  destruct (Nat.lt_ge_cases a (length m)) as [Hlt|Hge].
  - rewrite Forall_forall in HF. rewrite (HF _ (nth_In m [] Hlt)). exact Hb.
  - rewrite nth_overflow by assumption. simpl. lia.
Qed.

Lemma Qsum_map_ext {A : Type} (f g : A -> Q) (l : list A) :
  (forall x, f x == g x) -> Qsum_map f l == Qsum_map g l.
Proof.
  intros H. unfold Qsum_map. induction l as [|x l IH]; simpl; [reflexivity|].
  rewrite IH, (H x). reflexivity.
Qed.

Lemma Qsum_map_plus {A : Type} (f g : A -> Q) (l : list A) :
  Qsum_map (fun x => f x + g x) l == Qsum_map f l + Qsum_map g l.
Proof.
  unfold Qsum_map. induction l as [|x l IH]; simpl; [ring|].
  rewrite IH. ring.
Qed.

Lemma landing_mass_total (i r : nat) :
  (i < BOARD_SIZE)%nat -> (MIN_ROLL <= r <= MAX_ROLL)%nat ->
  Qsum_map (landing_mass dice_table i r) (range 0 BOARD_SIZE) ==
  nth r dice_table 0.
Proof.
  intros Hi Hr. apply Qeq_bool_iff.
  assert (Hr' : (r - MIN_ROLL < 11)%nat)
    by (unfold MIN_ROLL, MAX_ROLL in *; lia).
  replace r with (MIN_ROLL + (r - MIN_ROLL))%nat by lia.
  generalize (r - MIN_ROLL)%nat Hr'. clear r Hr Hr'. intros k Hk.
  revert i Hi.
  apply (forallb_below BOARD_SIZE
    (fun i => Qeq_bool
                (Qsum_map (landing_mass dice_table i (MIN_ROLL + k))
                   (range 0 BOARD_SIZE))
                (nth (MIN_ROLL + k) dice_table 0))).
  revert k Hk.
  apply (forallb_below 11
    (fun k => forallb
      (fun i => Qeq_bool
                  (Qsum_map (landing_mass dice_table i (MIN_ROLL + k))
                     (range 0 BOARD_SIZE))
                  (nth (MIN_ROLL + k) dice_table 0))
      (seq 0 BOARD_SIZE))).
  vm_compute. reflexivity.
Qed.

Lemma three_doubles_mass_total (i : nat) :
  (i < BOARD_SIZE)%nat ->
  Qsum_map (three_doubles_mass i) (range 0 BOARD_SIZE) ==
  (if (i =? GO_TO_JAIL_SQUARE)%nat then 0 else (1 / 12) ^ 3).
Proof.
  intros Hi. apply Qeq_bool_iff. revert i Hi.
  apply (forallb_below BOARD_SIZE
    (fun i => Qeq_bool (Qsum_map (three_doubles_mass i) (range 0 BOARD_SIZE))
                (if (i =? GO_TO_JAIL_SQUARE)%nat then 0 else (1 / 12) ^ 3))).
  vm_compute. reflexivity.
Qed.

(** ** One iteration of the roll loop *)

(** X2. On any 40 x 40 matrix, one iteration of the roll loop for an origin
    [i] and a roll [r] in 2..12 never raises, keeps the shape, leaves every
    other row as it was, and raises the sum of row [i] by exactly the roll
    probability plus, unless [i] is square 30, the three-doubles
    constant. *)
Theorem roll_iteration_effect (dice_probs : list Q) (i r : nat) (m : matrix) :
  calculate_dice_probabilities = Some dice_probs ->
  shape m -> (i < BOARD_SIZE)%nat -> (MIN_ROLL <= r <= MAX_ROLL)%nat ->
  exists m',
    roll_body dice_probs i r m = Some m' /\
    shape m' /\
    only_columns i (range 0 BOARD_SIZE) m m' /\
    Qsum (nth i m' []) ==
      Qsum (nth i m []) + nth r dice_probs 0
      + (if (i =? GO_TO_JAIL_SQUARE)%nat then 0 else (1 / 12) ^ 3).
Proof.
  intros Hdp Hs Hi Hr.
  destruct (roll_body_spec dice_probs Hdp i r m Hs Hi Hr) as (m' & E & Hs' & G).
  assert (Hd : dice_probs = dice_table).
  { unfold dice_table. rewrite Hdp. reflexivity. }
  exists m'. split; [assumption|]. split; [assumption|]. split.
  - intros a b [Hne | Hcol].
    + rewrite G. apply Nat.eqb_neq in Hne. rewrite Hne. ring.
    + assert (Hb : (BOARD_SIZE <= b)%nat).
      { destruct (Nat.lt_ge_cases b BOARD_SIZE) as [Hlt|Hge]; [|assumption].
        exfalso. apply Hcol. apply in_seq. lia. }
      rewrite (get_beyond_columns m' a b Hs' Hb).
      rewrite (get_beyond_columns m a b Hs Hb). reflexivity.
  - rewrite (row_sum_by_columns m' i Hs' Hi), (row_sum_by_columns m i Hs Hi).
    rewrite (Qsum_map_ext (get m' i)
               (fun b => get m i b
                         + (three_doubles_mass i b
                            + landing_mass dice_probs i r b))).
    + rewrite !Qsum_map_plus. subst dice_probs.
      rewrite (landing_mass_total i r Hi Hr), (three_doubles_mass_total i Hi).
      ring.
    + intros b. rewrite G, Nat.eqb_refl. reflexivity.
Qed.

Lemma roll_iteration_effect_witness :
  exists m',
    roll_body dice_table 3 4 (zeros BOARD_SIZE BOARD_SIZE) = Some m' /\
    shape m' /\
    only_columns 3 (range 0 BOARD_SIZE) (zeros BOARD_SIZE BOARD_SIZE) m' /\
    Qsum (nth 3 m' []) ==
      Qsum (nth 3 (zeros BOARD_SIZE BOARD_SIZE) []) + nth 4 dice_table 0
      + (if (3 =? GO_TO_JAIL_SQUARE)%nat then 0 else (1 / 12) ^ 3).
Proof.
  apply (roll_iteration_effect dice_table 3 4 (zeros BOARD_SIZE BOARD_SIZE)).
  - exact dice_table_computed.
  - exact shape_zeros.
  - unfold BOARD_SIZE; lia.
  - unfold MIN_ROLL, MAX_ROLL; lia.
Defined.

(** X3. The "normal movement" branch: a roll whose raw destination [d] is
    neither Go To Jail nor a Community-Chest nor a Chance square adds the
    whole roll probability to [matrix[i][d]] and changes nothing else. *)
Theorem plain_landing (dice_probs : list Q) (i r : nat) (m : matrix) :
  calculate_dice_probabilities = Some dice_probs ->
  shape m -> (i < BOARD_SIZE)%nat -> (MIN_ROLL <= r <= MAX_ROLL)%nat ->
  (i + r) mod BOARD_SIZE <> GO_TO_JAIL_SQUARE ->
  mem ((i + r) mod BOARD_SIZE) COMMUNITY_CHEST = false ->
  mem ((i + r) mod BOARD_SIZE) CHANCE = false ->
  let d := ((i + r) mod BOARD_SIZE)%nat in
  let p := nth r dice_probs 0 in
  exists m', landing_update dice_probs i r m = Some m' /\
    row_gains i [(d, p)] m m' /\
    only_columns i [d] m m'.
Proof.
  intros Hdp Hs Hi Hr Hj Hcc Hch d p.
  pose proof (dice_probs_lookup _ _ Hdp Hr) as Hp.
  destruct (landing_plain _ _ _ _ m Hs Hi Hp Hj Hcc Hch) as (m' & E & _ & G).
  assert (Hg : row_gains i [(d, p)] m m').
  { intros a b. rewrite G. unfold Qsum_map, Qsum; cbn [map fold_right fst snd].
    subst p d. ring. }
  exists m'. split; [assumption|]. split; [assumption|].
  exact (row_gains_only_columns _ _ _ _ Hg).
Qed.

Lemma plain_landing_witness :
  let d := ((38 + 5) mod BOARD_SIZE)%nat in
  let p := nth 5 dice_table 0 in
  exists m',
    landing_update dice_table 38 5 (zeros BOARD_SIZE BOARD_SIZE) = Some m' /\
    row_gains 38 [(d, p)] (zeros BOARD_SIZE BOARD_SIZE) m' /\
    only_columns 38 [d] (zeros BOARD_SIZE BOARD_SIZE) m'.
Proof.
  apply (plain_landing dice_table 38 5 (zeros BOARD_SIZE BOARD_SIZE)).
  - exact dice_table_computed.
  - exact shape_zeros.
  - unfold BOARD_SIZE; lia.
  - unfold MIN_ROLL, MAX_ROLL; lia.
  - discriminate.
  - reflexivity.
  - reflexivity.
Defined.

(** ** The constructed matrix *)

Lemma forallb_below2 (n k : nat) (f : nat -> nat -> bool) :
  forallb (fun i => forallb (f i) (seq 0 k)) (seq 0 n) = true ->
  forall i j, (i < n)%nat -> (j < k)%nat -> f i j = true.
Proof.
  intros H i j Hi Hj.
  pose proof (forallb_below n _ H i Hi) as Hrow. cbv beta in Hrow.
  exact (forallb_below k _ Hrow j Hj).
Qed.

(** X4. [generate_transition_matrix] returns a matrix of 40 rows of 40
    entries, each of them between 0 and 1. *)
Theorem transition_matrix_entries (M : matrix) (i j : nat) :
  generate_transition_matrix = Some M ->
  (i < BOARD_SIZE)%nat -> (j < BOARD_SIZE)%nat ->
  shape M /\ 0 <= get M i j <= 1.
Proof.
  intros HM Hi Hj.
  destruct (generated_is_value _ _ dice_table_computed HM) as [_ ->].
  split; [exact matrix_shape|].
  assert (H : (Qle_bool 0 (get transition_matrix_value i j)
               && Qle_bool (get transition_matrix_value i j) 1)%bool = true).
  { revert i j Hi Hj.
    apply (forallb_below2 BOARD_SIZE BOARD_SIZE
      (fun i j => (Qle_bool 0 (get transition_matrix_value i j)
                   && Qle_bool (get transition_matrix_value i j) 1)%bool)).
    vm_compute. reflexivity. }
  apply andb_true_iff in H. destruct H as [H0 H1].
  split; apply Qle_bool_iff; assumption.
Qed.

Lemma transition_matrix_entries_witness :
  shape transition_matrix_value /\
  0 <= get transition_matrix_value 17 27 <= 1.
Proof.
  apply (transition_matrix_entries transition_matrix_value 17 27).
  - exact generate_value.
  - unfold BOARD_SIZE; lia.
  - unfold BOARD_SIZE; lia.
Defined.

(** X5. A positive entry [matrix[i][j]] means that [j] lies 2 to 12 squares
    ahead of [i] (round the board) or is one of the fixed destinations of
    the cards and forced moves; no other transition has any probability. *)
Theorem transitions_are_rolls_or_cards (M : matrix) (i j : nat) :
  generate_transition_matrix = Some M ->
  (i < BOARD_SIZE)%nat -> (j < BOARD_SIZE)%nat ->
  0 < get M i j ->
  In j (map (fun roll => (i + roll) mod BOARD_SIZE)%nat
          (range MIN_ROLL (MAX_ROLL + 1))) \/
  In j card_destinations.
Proof.
  intros HM Hi Hj Hpos.
  destruct (generated_is_value _ _ dice_table_computed HM) as [_ ->].
  assert (H : (Qle_bool (get transition_matrix_value i j) 0
               || (mem j (map (fun roll => (i + roll) mod BOARD_SIZE)%nat
                            (range MIN_ROLL (MAX_ROLL + 1)))
                   || mem j card_destinations))%bool = true).
  { revert i j Hi Hj Hpos. intros i j Hi Hj _. revert i j Hi Hj.
    apply (forallb_below2 BOARD_SIZE BOARD_SIZE
      (fun i j => (Qle_bool (get transition_matrix_value i j) 0
                   || (mem j (map (fun roll => (i + roll) mod BOARD_SIZE)%nat
                                (range MIN_ROLL (MAX_ROLL + 1)))
                       || mem j card_destinations))%bool)).
    vm_compute. reflexivity. }
  apply orb_true_iff in H. destruct H as [H|H].
  - apply Qle_bool_iff in H. exfalso. exact (Qlt_not_le _ _ Hpos H).
  - apply orb_true_iff in H. destruct H as [H|H]; apply mem_In in H;
      [left | right]; assumption.
Qed.

Lemma transitions_are_rolls_or_cards_witness :
  In 24%nat (map (fun roll => (0 + roll) mod BOARD_SIZE)%nat
          (range MIN_ROLL (MAX_ROLL + 1))) \/
  In 24%nat card_destinations.
Proof.
  apply (transitions_are_rolls_or_cards transition_matrix_value 0 24).
  - exact generate_value.
  - unfold BOARD_SIZE; lia.
  - unfold BOARD_SIZE; lia.
  - vm_compute. reflexivity.
Defined.

Lemma entry_le_sum (l : list Q) (x : Q) :
  (forall y, In y l -> 0 <= y) -> In x l -> x <= Qsum l.
Proof.
  induction l as [|y l IH]; intros Hnn Hin; [contradiction|].
  assert (Hrest : 0 <= Qsum l).
  { clear IH Hin. induction l as [|z l IHl]; simpl; [apply Qle_refl|].
    assert (0 <= z) by (apply Hnn; right; left; reflexivity).
    assert (0 <= Qsum l).
    { apply IHl. intros w [Hw|Hw]; apply Hnn;
        [left | right; right]; assumption. }
    lra. }
  assert (Hy : 0 <= y) by (apply Hnn; left; reflexivity).
  simpl. destruct Hin as [->|Hin].
  - lra.
  - assert (x <= Qsum l)
      by (apply IH; [intros w Hw; apply Hnn; right|]; assumption).
    lra.
Qed.

(** X6. Dividing a row of the constructed matrix by its sum, as [move]
    does, gives 40 numbers between 0 and 1 that sum to exactly 1 and pass
    the validation of [np.random.choice]. *)
Theorem normalised_rows_are_distributions (M : matrix) (i : nat) :
  generate_transition_matrix = Some M ->
  (i < BOARD_SIZE)%nat ->
  let row := nth i M [] in
  let p := map (fun x => x / Qsum row) row in
  length p = BOARD_SIZE /\
  Forall (fun x => 0 <= x <= 1) p /\
  Qsum p == 1 /\
  valid_probabilities (range 0 BOARD_SIZE) p = true.
Proof.
  intros HM Hi row p.
  destruct (generated_is_value _ _ dice_table_computed HM) as [_ ->].
  pose proof (row_sum_positive i Hi) as Hpos. fold row in Hpos.
  assert (Hnn : forall x, In x row -> 0 <= x)
    by (intros x Hx; exact (entries_non_negative i x Hx)).
  assert (Hlen : length row = BOARD_SIZE).
  { destruct (nth_error_in_range transition_matrix_value i) as [r Er].
    - destruct matrix_shape as [Hl _]. rewrite Hl. exact Hi.
    - unfold row. rewrite (nth_error_nth _ _ [] Er).
      exact (shape_row _ _ _ matrix_shape Er). }
  clearbody row.
  split; [unfold p; rewrite length_map; exact Hlen|]. split; [|split].
  - apply Forall_forall. intros y Hy. unfold p in Hy.
    apply in_map_iff in Hy. destruct Hy as (x & <- & Hx). split.
    + apply Qle_shift_div_l; [assumption|]. specialize (Hnn x Hx). lra.
    + apply Qle_shift_div_r; [assumption|].
      pose proof (entry_le_sum row x Hnn Hx). lra.
  - unfold p. rewrite Qsum_scale. field. intros Hz. rewrite Hz in Hpos.
    exact (Qlt_irrefl 0 Hpos).
  - apply normalized_row_valid; try assumption; discriminate.
Qed.

Lemma normalised_rows_are_distributions_witness :
  let row := nth 0 transition_matrix_value [] in
  let p := map (fun x => x / Qsum row) row in
  length p = BOARD_SIZE /\
  Forall (fun x => 0 <= x <= 1) p /\
  Qsum p == 1 /\
  valid_probabilities (range 0 BOARD_SIZE) p = true.
Proof.
  apply (normalised_rows_are_distributions transition_matrix_value 0).
  - exact generate_value.
  - unfold BOARD_SIZE; lia.
Defined.

Local Open Scope nat_scope.

(** * Further properties of the sampler *)

(** ** One call of [move] from any state *)

Lemma count_increment (d : dict) (k k' : string) :
  count (increment d k) k' =
  count d k' + (if (k =? k')%string then 1 else 0).
Proof.
  unfold count at 1. rewrite dict_get_increment.
  destruct (String.eqb_spec k k') as [->|Hne]; simpl; [reflexivity|].
  unfold count. lia.
Qed.

Section AnyState.

Variable rng : Type.
Variable random_sample : rng -> Q * rng.

(** What a successful call of [move] went through. *)
Lemma move_inversion g self w' :
  move random_sample (g, self) = Some w' ->
  exists row next space,
    nth_error (transition_matrix self) (current_position self) = Some row /\
    Qeq_bool (Qsum row) 0 = false /\
    choice random_sample (range 0 BOARD_SIZE)
      (map (fun x => (x / Qsum row)%Q) row) g = Some (next, fst w') /\
    nth_error (board_spaces self) next = Some space /\
    snd w' = landed self next space.
Proof.
  unfold move.
  destruct (nth_error (transition_matrix self) (current_position self))
    as [row|]; cbn [bind]; [|discriminate].
  destruct (Qeq_bool (Qsum row) 0) eqn:Ez; [discriminate|].
  destruct (choice random_sample _ _ g) as [[next g']|] eqn:Ec; cbn [bind];
    [|discriminate].
  destruct (nth_error (board_spaces self) next) as [space|] eqn:Es;
    cbn [bind]; [|discriminate].
  intros H. apply (f_equal (option_get w')) in H. cbn [option_get] in H.
  subst w'. exists row, next, space.
  split; [reflexivity|]. split; [exact Ez|]. split; [exact Ec|].
  split; [exact Es | reflexivity].
Qed.

Lemma move_bookkeeping g self w' :
  move random_sample (g, self) = Some w' ->
  exists space,
    landings (snd w') = increment (landings self) space /\
    moves_count (snd w') = moves_count self + 1 /\
    move_history (snd w') =
      move_history self ++
      (if (moves_count self + 1) mod 100 =? 0
       then [increment (landings self) space] else []).
Proof.
  intros H.
  destruct (move_inversion g self w' H) as (row & next & space & _ & _ & _ & _ & E).
  exists space. rewrite E. unfold landed.
  cbn [landings moves_count move_history].
  split; [reflexivity|]. split; [reflexivity|].
  destruct ((moves_count self + 1) mod 100 =? 0);
    [reflexivity | rewrite app_nil_r; reflexivity].
Qed.

End AnyState.



(** X8. A call of [move] that returns, with its uniform sample in [0, 1),
    has drawn that one sample, stands on a square of the board whose
    transition probability from the previous square is not zero, has added
    1 to the count of that square's name and to no other count, and has
    advanced the move counter by 1. *)
Theorem move_effect (rng : Type) (random_sample : rng -> Q * rng)
    (g g' : rng) (self self' : MonopolySimulation) :
  (0 <= fst (random_sample g) < 1)%Q ->
  move random_sample (g, self) = Some (g', self') ->
  g' = snd (random_sample g) /\
  current_position self' < BOARD_SIZE /\
  ~ get (transition_matrix self) (current_position self)
        (current_position self') == 0 /\
  moves_count self' = moves_count self + 1 /\
  board_spaces self' = board_spaces self /\
  exists space,
    nth_error (board_spaces self) (current_position self') = Some space /\
    landings self' = increment (landings self) space /\
    (forall k, count (landings self') k =
               count (landings self) k + (if (space =? k)%string then 1 else 0)) /\
    dict_total (landings self') = dict_total (landings self) + 1.
Proof.
  intros Hu H.
  destruct (move_inversion rng random_sample g self _ H)
    as (row & next & space & Hrow & Hz & Hc & Hs & E).
  cbn [fst snd] in Hc, E. subst self'.
  assert (Hv : valid_probabilities (range 0 BOARD_SIZE)
                 (map (fun x => (x / Qsum row)%Q) row) = true).
  { unfold choice in Hc. destruct (valid_probabilities _ _);
      [reflexivity | discriminate]. }
  destruct (choice_spec rng random_sample _ _ g Hv Hu)
    as (idx & v & Ec & Ea & Hidx & Hp).
  rewrite Ec in Hc. apply (f_equal (option_get (next, g'))) in Hc.
  cbn [option_get] in Hc.
  assert (Hlen : length row = BOARD_SIZE).
  { unfold valid_probabilities in Hv. rewrite !andb_true_iff in Hv.
    destruct Hv as [[[_ Hl] _] _]. apply Nat.eqb_eq in Hl.
    rewrite length_map in Hl. exact Hl. }
  rewrite length_map, Hlen in Hidx.
  assert (Hv' : v = idx).
  { unfold range in Ea. try rewrite nth_error_seq in Ea.
    destruct (idx <? BOARD_SIZE - 0); [|discriminate].
    apply (f_equal (option_get v)) in Ea. cbn in Ea. congruence. }
  assert (Hnext : next = idx) by congruence.
  assert (Hg : g' = snd (random_sample g)) by congruence.
  subst v next. clear Hc.
  unfold landed. cbn [current_position moves_count board_spaces landings].
  split; [assumption|]. split; [assumption|]. split.
  - unfold get. rewrite (nth_error_nth _ _ [] Hrow). intros Hzero.
    rewrite (nth_indep _ 0%Q (0 / Qsum row)%Q) in Hp
      by (rewrite length_map; lia).
    rewrite (map_nth (fun x => (x / Qsum row)%Q)) in Hp.
    rewrite Hzero in Hp. unfold Qdiv in Hp. rewrite Qmult_0_l in Hp.
    exact (Qlt_irrefl 0 Hp).
  - split; [reflexivity|]. split; [reflexivity|].
    exists space. split; [assumption|]. split; [reflexivity|].
    split; [intros k; apply count_increment | apply dict_total_increment].
Qed.

Lemma move_effect_witness :
  let w' := option_get (1%Z, demo_state) (move lcg_sample (1%Z, demo_state)) in
  fst w' = snd (lcg_sample 1%Z) /\
  current_position (snd w') < BOARD_SIZE /\
  ~ get (transition_matrix demo_state) (current_position demo_state)
        (current_position (snd w')) == 0 /\
  moves_count (snd w') = moves_count demo_state + 1 /\
  board_spaces (snd w') = board_spaces demo_state /\
  exists space,
    nth_error (board_spaces demo_state) (current_position (snd w')) =
      Some space /\
    landings (snd w') = increment (landings demo_state) space /\
    (forall k, count (landings (snd w')) k =
               count (landings demo_state) k
               + (if (space =? k)%string then 1 else 0)) /\
    dict_total (landings (snd w')) = dict_total (landings demo_state) + 1.
Proof.
  intros w'.
  apply (move_effect Z lcg_sample 1%Z (fst w') demo_state (snd w')).
  - exact (lcg_sample_range 1%Z).
  - vm_compute. reflexivity.
Defined.

(** ** The history over a run *)

Lemma snapshot_step (k : nat) :
  length (if (k + 1) mod 100 =? 0 then [tt] else []) = (k + 1) / 100 - k / 100.
Proof.
  pose proof (snapshot_count k) as H. replace (S k) with (k + 1) in H by lia.
  rewrite H. destruct ((k + 1) mod 100 =? 0); simpl; lia.
Qed.

Lemma increment_positive (d : dict) (k : string) :
  Forall (fun kv => 0 < snd kv) d ->
  Forall (fun kv => 0 < snd kv) (increment d k).
Proof.
  induction d as [|[k0 v] d IH]; simpl; intros H.
  - constructor; [simpl; lia | constructor].
  - inversion H as [|? ? Hv Hd]; subst.
    destruct (k0 =? k)%string; constructor; simpl in *; auto; lia.
Qed.

Section RunsFromAnyState.

Variable rng : Type.
Variable random_sample : rng -> Q * rng.

Lemma run_history_grows n : forall w w',
  run_moves random_sample n w = Some w' ->
  moves_count (snd w') = moves_count (snd w) + n /\
  exists later,
    move_history (snd w') = move_history (snd w) ++ later /\
    length later =
      (moves_count (snd w) + n) / 100 - moves_count (snd w) / 100.
Proof.
  induction n as [|n IH]; intros w w' H.
  - apply (f_equal (option_get w')) in H. cbn in H. subst w'.
    split; [lia|]. exists []. rewrite app_nil_r, Nat.add_0_r, Nat.sub_diag.
    split; reflexivity.
  - rewrite run_moves_S in H.
    destruct (move random_sample w) as [w1|] eqn:E; cbn [bind] in H;
      [|discriminate].
    destruct w as [g self].
    destruct (move_bookkeeping rng random_sample g self w1 E)
      as (space & _ & Hc & Hh).
    destruct (IH w1 w' H) as (Hc' & later & Hh' & Hl).
    cbn [snd] in *. split; [lia|].
    eexists. split.
    + rewrite Hh', Hh, <- app_assoc. reflexivity.
    + rewrite length_app, Hl, Hc.
      assert (H1 : length (if (moves_count self + 1) mod 100 =? 0
                           then [increment (landings self) space] else []) =
                   (moves_count self + 1) / 100 - moves_count self / 100).
      { rewrite <- snapshot_step.
        destruct ((moves_count self + 1) mod 100 =? 0); reflexivity. }
      rewrite H1.
      pose proof (Nat.Div0.div_le_mono (moves_count self)
                    (moves_count self + 1) 100 ltac:(lia)).
      pose proof (Nat.Div0.div_le_mono (moves_count self + 1)
                    (moves_count self + 1 + n) 100 ltac:(lia)).
      replace (moves_count self + S n) with (moves_count self + 1 + n) by lia.
      lia.
Qed.

Lemma move_keeps_snapshots_sound g self w' :
  move random_sample (g, self) = Some w' ->
  snapshots_sound self -> snapshots_sound (snd w').
Proof.
  intros H (Hkeys & Hpos & Htotal & Hlen & Hhk & Hsums).
  destruct (move_bookkeeping rng random_sample g self w' H)
    as (space & Hl & Hc & Hh).
  unfold snapshots_sound. rewrite Hl, Hc, Hh.
  split; [apply increment_NoDup; assumption|].
  split; [apply increment_positive; assumption|].
  split; [rewrite dict_total_increment; lia|].
  pose proof (snapshot_count (moves_count self)) as Hdiv.
  replace (S (moves_count self)) with (moves_count self + 1) in Hdiv by lia.
  destruct ((moves_count self + 1) mod 100 =? 0) eqn:Emod.
  - split; [rewrite length_app, Hlen, Hdiv; reflexivity|].
    split; [apply Forall_app; split;
            [assumption
            | constructor; [apply increment_NoDup; assumption | constructor]]|].
    rewrite length_app. cbn [length]. rewrite seq_app, !map_app, Hsums.
    f_equal. cbn [seq map Nat.add]. f_equal.
    rewrite dict_total_increment, Htotal, Hlen.
    apply Nat.eqb_eq in Emod.
    pose proof (Nat.div_mod_eq (moves_count self + 1) 100). lia.
  - rewrite app_nil_r. split; [lia|]. split; assumption.
Qed.

Lemma run_keeps_snapshots_sound n : forall w w',
  run_moves random_sample n w = Some w' ->
  snapshots_sound (snd w) -> snapshots_sound (snd w').
Proof.
  induction n as [|n IH]; intros w w' H Hs.
  - apply (f_equal (option_get w')) in H. cbn in H. subst w'. assumption.
  - rewrite run_moves_S in H.
    destruct (move random_sample w) as [w1|] eqn:E; cbn [bind] in H;
      [|discriminate].
    destruct w as [g self]. apply (IH w1 w' H).
    exact (move_keeps_snapshots_sound g self w1 E Hs).
Qed.

End RunsFromAnyState.

Lemma initial_snapshots_sound : snapshots_sound initial_state.
Proof.
  unfold snapshots_sound. simpl.
  repeat split; try reflexivity; constructor.
Qed.

(** X9. The history is append-only: a run of [n] calls of [move] from any
    state advances the move counter by [n], keeps every snapshot taken
    before as it was, and appends one snapshot for each multiple of 100
    that the counter passes. *)
Theorem history_append_only (rng : Type) (random_sample : rng -> Q * rng)
    (n : nat) (g g' : rng) (self self' : MonopolySimulation) :
  run_moves random_sample n (g, self) = Some (g', self') ->
  moves_count self' = moves_count self + n /\
  exists later,
    move_history self' = move_history self ++ later /\
    length later = (moves_count self + n) / 100 - moves_count self / 100.
Proof.
  intros H. exact (run_history_grows rng random_sample n _ _ H).
Qed.

Lemma history_append_only_witness :
  let w' := option_get (1%Z, demo_state)
              (run_moves lcg_sample 3 (1%Z, demo_state)) in
  moves_count (snd w') = moves_count demo_state + 3 /\
  exists later,
    move_history (snd w') = move_history demo_state ++ later /\
    length later =
      (moves_count demo_state + 3) / 100 - moves_count demo_state / 100.
Proof.
  intros w'.
  apply (history_append_only Z lcg_sample 3 1%Z (fst w') demo_state (snd w')).
  vm_compute. reflexivity.
Defined.

(** X10. From the freshly constructed object, the snapshot taken after the
    [100 * (j + 1)]-th move holds counts that add up to exactly
    [100 * (j + 1)], and every snapshot is dominated by the final landing
    mapping. *)
Theorem snapshot_totals (rng : Type) (random_sample : rng -> Q * rng)
    (N : nat) (g : rng) (s0 : MonopolySimulation) :
  (forall g, (0 <= fst (random_sample g) < 1)%Q) ->
  init = Some s0 ->
  exists g' self,
    run_moves random_sample N (g, s0) = Some (g', self) /\
    map dict_total (move_history self) =
      map (fun j => 100 * (j + 1)) (seq 0 (N / 100)) /\
    Forall (fun d => dict_le d (landings self)) (move_history self).
Proof.
  intros Hrange Hinit. apply init_unique in Hinit. subst s0.
  destruct (run_sampled rng random_sample Hrange N g 0 initial_state
              sampled_initial)
    as (g' & self & vs & E & Hs & _).
  pose proof (run_keeps_snapshots_sound rng random_sample N _ _ E
                initial_snapshots_sound) as (_ & _ & _ & _ & _ & Hsums).
  destruct Hs as (_ & _ & _ & Hlen & _ & Hle & _).
  cbn [snd] in Hsums. rewrite Hlen in Hsums.
  exists g', self. repeat split; assumption.
Qed.

Lemma snapshot_totals_witness :
  exists g' self,
    run_moves lcg_sample 350 (42%Z, initial_state) = Some (g', self) /\
    map dict_total (move_history self) =
      map (fun j => 100 * (j + 1)) (seq 0 (350 / 100)) /\
    Forall (fun d => dict_le d (landings self)) (move_history self).
Proof.
  apply (snapshot_totals Z lcg_sample 350 42%Z initial_state).
  - exact lcg_sample_range.
  - exact init_value.
Defined.

(** * Further properties of the exported table *)

(** ** Sorting and collecting the column labels *)

Lemma insert_sorted_In (k x : string) (l : list string) :
  In x (insert_sorted k l) <-> x = k \/ In x l.
Proof.
  induction l as [|h t IH]; simpl.
  - intuition.
  - destruct (String.leb k h); simpl; [intuition|].
    rewrite IH. intuition.
Qed.

Lemma sorted_In (x : string) (l : list string) : In x (sorted l) <-> In x l.
Proof.
  unfold sorted. induction l as [|h t IH]; simpl; [reflexivity|].
  rewrite insert_sorted_In, IH. intuition.
Qed.

Lemma insert_sorted_NoDup (k : string) (l : list string) :
  ~ In k l -> NoDup l -> NoDup (insert_sorted k l).
Proof.
  induction l as [|h t IH]; simpl; intros Hk Hnd.
  - constructor; [intros [] | constructor].
  - destruct (String.leb k h); [constructor; assumption|].
    inversion Hnd as [|? ? Hh Ht]; subst. constructor.
    + rewrite insert_sorted_In. intros [->|Hin]; [|contradiction].
      apply Hk. left. reflexivity.
    + apply IH; [|assumption]. intros Hin. apply Hk. right. assumption.
Qed.

Lemma sorted_NoDup (l : list string) : NoDup l -> NoDup (sorted l).
Proof.
  unfold sorted. induction l as [|h t IH]; simpl; intros Hnd;
    [constructor|].
  inversion Hnd as [|? ? Hh Ht]; subst.
  apply insert_sorted_NoDup; [|apply IH; assumption].
  fold (sorted t). rewrite sorted_In. assumption.
Qed.

Lemma insert_sorted_Sorted (k : string) (l : list string) :
  Sorted (fun a b => String.leb a b = true) l ->
  Sorted (fun a b => String.leb a b = true) (insert_sorted k l).
Proof.
  induction l as [|h t IH]; simpl; intros Hs.
  - constructor; constructor.
  - destruct (String.leb k h) eqn:E.
    + constructor; [assumption | constructor; assumption].
    + inversion Hs as [|? ? Ht Hhd]; subst.
      constructor; [apply IH; assumption|].
      assert (Hhk : String.leb h k = true).
      { destruct (String.leb_total h k) as [H|H]; [assumption | congruence]. }
      destruct t as [|h' t']; simpl.
      * constructor. assumption.
      * destruct (String.leb k h'); constructor; [assumption|].
        inversion Hhd; subst. assumption.
Qed.

Lemma sorted_Sorted (l : list string) :
  Sorted (fun a b => String.leb a b = true) (sorted l).
Proof.
  unfold sorted. induction l as [|h t IH]; simpl; [constructor|].
  apply insert_sorted_Sorted. exact IH.
Qed.

Lemma existsb_eqb_In (k : string) (acc : list string) :
  existsb (String.eqb k) acc = true <-> In k acc.
Proof.
  rewrite existsb_exists. split.
  - intros (y & Hy & E). apply String.eqb_eq in E. subst. assumption.
  - intros H. exists k. split; [assumption | apply String.eqb_refl].
Qed.

Lemma add_keys_spec (d : dict) : forall acc,
  let acc' :=
    fold_left
      (fun acc kv =>
         if existsb (String.eqb (fst kv)) acc then acc else acc ++ [fst kv])
      d acc in
  (forall k, In k acc' <-> In k acc \/ In k (map fst d)) /\
  (NoDup acc -> NoDup acc').
Proof.
  induction d as [|[k0 v] d IH]; intros acc; cbn [fold_left map fst].
  - split; [intros k; simpl; intuition | auto].
  - destruct (existsb (String.eqb k0) acc) eqn:E.
    + destruct (IH acc) as [Hin Hnd]. split; [|exact Hnd].
      intros k. rewrite (Hin k). simpl.
      apply existsb_eqb_In in E. intuition (subst; auto).
    + destruct (IH (acc ++ [k0])) as [Hin Hnd]. split.
      * intros k. rewrite (Hin k), in_app_iff. simpl. intuition.
      * intros Hacc. apply Hnd.
        assert (Hnot : ~ In k0 acc).
        { intros Hk. apply existsb_eqb_In in Hk. congruence. }
        clear - Hacc Hnot. induction acc as [|a acc IHa]; simpl.
        -- constructor; [intros [] | constructor].
        -- inversion Hacc as [|? ? Ha Hacc']; subst. constructor.
           ++ rewrite in_app_iff. simpl. intros [H|[H|[]]]; [contradiction|].
              apply Hnot. left. symmetry. assumption.
           ++ apply IHa; [assumption|]. intros H. apply Hnot. right. assumption.
Qed.

Lemma record_keys_from (records : list dict) : forall acc,
  let acc' :=
    fold_left
      (fun acc d =>
         fold_left
           (fun acc kv =>
              if existsb (String.eqb (fst kv)) acc then acc
              else acc ++ [fst kv])
           d acc)
      records acc in
  (forall k, In k acc' <->
             In k acc \/ exists d, In d records /\ In k (map fst d)) /\
  (NoDup acc -> NoDup acc').
Proof.
  induction records as [|d records IH]; intros acc; cbn [fold_left].
  - split; [|auto]. intros k. split; [auto|].
    intros [H | (d & [] & _)]. assumption.
  - destruct (add_keys_spec d acc) as [Hin1 Hnd1].
    cbv zeta in Hin1, Hnd1.
    destruct (IH (fold_left
                    (fun acc kv =>
                       if existsb (String.eqb (fst kv)) acc then acc
                       else acc ++ [fst kv]) d acc)) as [Hin Hnd].
    cbv zeta in Hin, Hnd. split; [|auto].
    intros k. rewrite (Hin k), (Hin1 k). split.
    + intros [[H|H] | (d' & Hd' & Hk)].
      * left. assumption.
      * right. exists d. split; [left; reflexivity | assumption].
      * right. exists d'. split; [right; assumption | assumption].
    + intros [H | (d' & [<-|Hd'] & Hk)].
      * left. left. assumption.
      * left. right. assumption.
      * right. exists d'. split; assumption.
Qed.

Lemma columns_spec (self : MonopolySimulation) :
  (forall k, In k (columns (save_to_csv self)) <->
             exists d, In d (move_history self) /\ In k (map fst d)) /\
  NoDup (columns (save_to_csv self)).
Proof.
  unfold save_to_csv. cbn [columns].
  destruct (record_keys_from (move_history self) []) as [Hin Hnd].
  cbv zeta in Hin, Hnd. fold (record_keys (move_history self)) in Hin, Hnd.
  split.
  - intros k. rewrite sorted_In, (Hin k). split.
    + intros [[] | H]. assumption.
    + intros H. right. assumption.
  - apply sorted_NoDup, Hnd. constructor.
Qed.

Lemma dict_get_key (d : dict) (k : string) :
  In k (map fst d) <-> exists v, dict_get d k = Some v.
Proof.
  induction d as [|[k0 v0] d IH]; simpl.
  - split; [intros [] | intros (v & H); discriminate].
  - destruct (String.eqb_spec k0 k) as [->|Hne].
    + split; [intros _; exists v0; reflexivity | intros _; left; reflexivity].
    + rewrite <- IH. split; [intros [H|H]; [congruence | assumption] | auto].
Qed.

(** ** The frame built by [save_to_csv] *)

(** X11. The frame that [save_to_csv] returns has one row per snapshot,
    every row has one cell per column, and the columns are exactly the
    square names that occur in some snapshot, without duplicates and in
    ascending order. *)
Theorem exported_table_shape (self : MonopolySimulation) :
  length (rows (save_to_csv self)) = length (move_history self) /\
  Forall (fun row => length row = length (columns (save_to_csv self)))
    (rows (save_to_csv self)) /\
  Sorted (fun a b => String.leb a b = true) (columns (save_to_csv self)) /\
  NoDup (columns (save_to_csv self)) /\
  forall k, In k (columns (save_to_csv self)) <->
            exists d, In d (move_history self) /\ In k (map fst d).
Proof.
  destruct (columns_spec self) as [Hin Hnd].
  split; [unfold save_to_csv; cbn [rows]; apply length_map|].
  split.
  - unfold save_to_csv. cbn [rows columns]. apply Forall_forall.
    intros row Hrow. apply in_map_iff in Hrow. destruct Hrow as (d & <- & _).
    apply length_map.
  - split; [unfold save_to_csv; cbn [columns]; apply sorted_Sorted|].
    split; assumption.
Qed.

(** X12. Round trip: a count recorded for a square in the [j]-th snapshot
    is found in row [j] of the exported frame, in the column labelled with
    that square's name. *)
Theorem exported_count_round_trip (self : MonopolySimulation) (j : nat)
    (d : dict) (name : string) (v : nat) :
  nth_error (move_history self) j = Some d ->
  dict_get d name = Some v ->
  exists c row,
    nth_error (columns (save_to_csv self)) c = Some name /\
    nth_error (rows (save_to_csv self)) j = Some row /\
    nth_error row c = Some v.
Proof.
  intros Hd Hv. destruct (columns_spec self) as [Hin _].
  assert (Hcol : In name (columns (save_to_csv self))).
  { apply Hin. exists d. split; [eapply nth_error_In; eassumption|].
    apply dict_get_key. exists v. assumption. }
  apply In_nth_error in Hcol. destruct Hcol as [c Hc].
  exists c, (map (count d) (columns (save_to_csv self))).
  split; [assumption|]. split.
  - unfold save_to_csv at 1. cbn [rows].
    fold (columns (save_to_csv self)).
    exact (map_nth_error _ _ _ Hd).
  - rewrite (map_nth_error _ _ _ Hc). unfold count. rewrite Hv. reflexivity.
Qed.

Lemma exported_count_round_trip_witness :
  exists c row,
    nth_error
      (columns (save_to_csv
         {| board_spaces := BOARD_SPACES; current_position := 10;
            landings := [("Jail", 2); ("GO", 1)]%string;
            move_history := [[("Jail", 1)]; [("Jail", 2); ("GO", 1)]]%string;
            transition_matrix := []; moves_count := 200 |})) c =
      Some "GO"%string /\
    nth_error
      (rows (save_to_csv
         {| board_spaces := BOARD_SPACES; current_position := 10;
            landings := [("Jail", 2); ("GO", 1)]%string;
            move_history := [[("Jail", 1)]; [("Jail", 2); ("GO", 1)]]%string;
            transition_matrix := []; moves_count := 200 |})) 1 = Some row /\
    nth_error row c = Some 1.
Proof.
  apply (exported_count_round_trip _ 1 [("Jail", 2); ("GO", 1)]%string
           "GO"%string 1); reflexivity.
Defined.

(** X13. Zero fill: a cell of row [j] whose column is labelled with a
    square that the [j]-th snapshot has no entry for holds 0. *)
Theorem exported_missing_is_zero (self : MonopolySimulation) (j c : nat)
    (d : dict) (name : string) :
  nth_error (move_history self) j = Some d ->
  nth_error (columns (save_to_csv self)) c = Some name ->
  dict_get d name = None ->
  exists row,
    nth_error (rows (save_to_csv self)) j = Some row /\
    nth_error row c = Some 0.
Proof.
  intros Hd Hc Hv.
  exists (map (count d) (columns (save_to_csv self))). split.
  - unfold save_to_csv at 1. cbn [rows].
    fold (columns (save_to_csv self)).
    exact (map_nth_error _ _ _ Hd).
  - rewrite (map_nth_error _ _ _ Hc). unfold count. rewrite Hv. reflexivity.
Qed.

Lemma exported_missing_is_zero_witness :
  exists row,
    nth_error
      (rows (save_to_csv
         {| board_spaces := BOARD_SPACES; current_position := 10;
            landings := [("Jail", 2); ("GO", 1)]%string;
            move_history := [[("Jail", 1)]; [("Jail", 2); ("GO", 1)]]%string;
            transition_matrix := []; moves_count := 200 |})) 0 = Some row /\
    nth_error row 0 = Some 0.
Proof.
  apply (exported_missing_is_zero _ 0 0 [("Jail", 1)]%string "GO"%string);
    reflexivity.
Defined.

(** ** The table of a whole simulation *)

Lemma positive_counts (d : dict) (k : string) (v : nat) :
  Forall (fun kv => 0 < snd kv) d -> dict_get d k = Some v -> 0 < v.
Proof.
  induction d as [|[k0 v0] d IH]; simpl; intros Hpos H; [discriminate|].
  inversion Hpos as [|? ? Hv Hd]; subst.
  destruct (k0 =? k)%string; [|exact (IH Hd H)].
  simpl in Hv. congruence.
Qed.

Lemma dict_le_keys (d1 d2 : dict) :
  dict_le d1 d2 -> incl (map fst d1) (map fst d2).
Proof.
  intros Hle k Hk. apply dict_get_key in Hk. destruct Hk as [v Hv].
  destruct (Hle k v Hv) as (v' & Hv' & _).
  apply dict_get_key. exists v'. assumption.
Qed.

(** X14. With every uniform sample in [0, 1), [run_simulation] returns a
    frame with [num_moves / 100] rows whose columns are names of squares of
    the board, never "Go To Jail"; every row has one cell per column and
    the cells of row [j] add up to [100 * (j + 1)]. *)
Theorem run_simulation_table (rng : Type) (random_sample : rng -> Q * rng)
    (num_moves : nat) (g : rng) :
  (forall g, (0 <= fst (random_sample g) < 1)%Q) ->
  exists g' df,
    run_simulation random_sample num_moves g = Some (g', df) /\
    length (rows df) = num_moves / 100 /\
    Forall (fun row => length row = length (columns df)) (rows df) /\
    incl (columns df) BOARD_SPACES /\
    ~ In "Go To Jail"%string (columns df) /\
    map (@list_sum) (rows df) =
      map (fun j => 100 * (j + 1)) (seq 0 (num_moves / 100)).
Proof.
  intros Hrange.
  destruct (run_sampled rng random_sample Hrange num_moves g 0 initial_state
              sampled_initial)
    as (g' & self & vs & E & Hs & _).
  pose proof (run_keeps_snapshots_sound rng random_sample num_moves _ _ E
                initial_snapshots_sound)
    as (_ & Hpos & _ & _ & Hhk & Hsums).
  destruct Hs as (_ & _ & _ & Hlen & _ & Hle & _ & Hjail & _ & _ & Hnames).
  change (0 + num_moves) with num_moves in Hlen. cbn [snd] in *.
  exists g', (save_to_csv self).
  split; [unfold run_simulation; rewrite init_value; cbn [bind];
          rewrite E; reflexivity|].
  destruct (columns_spec self) as [Hin Hnd].
  assert (Hkeys : forall k, In k (columns (save_to_csv self)) ->
                            In k (map fst (landings self))).
  { intros k Hk. apply Hin in Hk. destruct Hk as (d & Hd & Hkd).
    rewrite Forall_forall in Hle. exact (dict_le_keys _ _ (Hle d Hd) k Hkd). }
  split; [unfold save_to_csv; cbn [rows]; rewrite length_map; exact Hlen|].
  split.
  { unfold save_to_csv. cbn [rows columns]. apply Forall_forall.
    intros row Hrow. apply in_map_iff in Hrow. destruct Hrow as (d & <- & _).
    apply length_map. }
  split; [intros k Hk; apply Hnames, Hkeys, Hk|].
  split.
  { intros Hk. apply Hkeys, dict_get_key in Hk. destruct Hk as [v Hv].
    pose proof (positive_counts _ _ _ Hpos Hv) as Hv0.
    unfold count in Hjail. rewrite Hv in Hjail. simpl in Hjail. lia. }
  rewrite <- Hlen, <- Hsums. unfold save_to_csv at 1. cbn [rows].
  fold (columns (save_to_csv self)). rewrite map_map.
  apply map_ext_in. intros d Hd. apply count_sum.
  - assumption.
  - rewrite Forall_forall in Hhk. exact (Hhk d Hd).
  - intros k Hk. apply Hin. exists d. split; assumption.
Qed.

Lemma run_simulation_table_witness :
  exists g' df,
    run_simulation lcg_sample 1000 7%Z = Some (g', df) /\
    length (rows df) = 1000 / 100 /\
    Forall (fun row => length row = length (columns df)) (rows df) /\
    incl (columns df) BOARD_SPACES /\
    ~ In "Go To Jail"%string (columns df) /\
    map (@list_sum) (rows df) =
      map (fun j => 100 * (j + 1)) (seq 0 (1000 / 100)).
Proof.
  apply (run_simulation_table Z lcg_sample 1000 7%Z).
  exact lcg_sample_range.
Defined.

(** X15. A simulation of fewer than 100 moves takes no snapshot, so
    [run_simulation] returns a frame without columns and without rows. *)
Theorem short_simulation_exports_nothing (rng : Type)
    (random_sample : rng -> Q * rng) (num_moves : nat) (g : rng) :
  (forall g, (0 <= fst (random_sample g) < 1)%Q) ->
  num_moves < 100 ->
  exists g',
    run_simulation random_sample num_moves g =
    Some (g', {| columns := []; rows := [] |}).
Proof.
  intros Hrange Hshort.
  destruct (run_sampled rng random_sample Hrange num_moves g 0 initial_state
              sampled_initial)
    as (g' & self & vs & E & Hs & _).
  destruct Hs as (_ & _ & _ & Hlen & _).
  change (0 + num_moves) with num_moves in Hlen.
  rewrite (Nat.div_small _ _ Hshort) in Hlen.
  apply length_zero_iff_nil in Hlen.
  exists g'. unfold run_simulation. rewrite init_value. cbn [bind].
  rewrite E. cbn [bind]. unfold save_to_csv. rewrite Hlen. reflexivity.
Qed.

Lemma short_simulation_exports_nothing_witness :
  exists g',
    run_simulation lcg_sample 99 7%Z =
    Some (g', {| columns := []; rows := [] |}).
Proof.
  apply (short_simulation_exports_nothing Z lcg_sample 99 7%Z).
  - exact lcg_sample_range.
  - lia.
Defined.
